(** * The API load-balancer model builder of kops: pkg/model/api_loadbalancer.go

    A shallow embedding of [APILoadBalancerBuilder.Build] and of
    [chooseBestSubnetForELB], with the properties of the builder that the
    design document states.

    Conventions.
    - A Go pointer that may be nil is an [option]; [s(..)], [i64(..)] and
      [fi.Bool(..)] build a non-nil pointer, hence [Some].
    - Go's [int] and [int64] are [Z]; the only arithmetic of the file that can
      wrap is the idle timeout, whose wrap-around is written out.
    - A Go [map] is a [gmap]; [sets.String] is a [gset string].
    - Go's [<] on strings compares bytes lexicographically: [String.ltb]. *)

From Stdlib Require Import ZArith String Ascii List Permutation Sorted Lia.
From stdpp Require Import base option list gmap strings fin_maps sorting.

Local Open Scope string_scope.
Local Open Scope list_scope.
Local Open Scope Z_scope.

(** ** The API types of package kops *)

(** Modelled from the spec: the constants of [kops.LoadBalancerType] and
    [kops.SubnetType] are declared in pkg/apis/kops; both types are strings,
    so that a value outside the declared constants can occur. *)
Definition LoadBalancerTypePublic : string := "public".
Definition LoadBalancerTypeInternal : string := "internal".
Definition SubnetTypePublic : string := "public".
Definition SubnetTypePrivate : string := "private".
Definition SubnetTypeUtility : string := "utility".
Definition InstanceGroupRoleMaster : string := "Master".

(** [kops.ClusterSubnetSpec], with the fields the builder reads. *)
Record ClusterSubnetSpec := {
  ClusterSubnetSpec_Name : string;
  ClusterSubnetSpec_Zone : string;
  ClusterSubnetSpec_Type : string
}.

(** [kops.LoadBalancerAccessSpec]; [IdleTimeoutSeconds] is an [*int64]. *)
Record LoadBalancerAccessSpec := {
  LoadBalancerAccessSpec_Type : string;
  LoadBalancerAccessSpec_IdleTimeoutSeconds : option Z
}.

(** [kops.InstanceGroup]: [ObjectMeta.Name] and [Spec.Subnets]. *)
Record InstanceGroup := {
  InstanceGroup_Name : string;
  InstanceGroup_Subnets : list string
}.

(** [kops.ClusterSpec]: [API.LoadBalancer], [Subnets], [KubernetesAPIAccess]. *)
Record ClusterSpec := {
  ClusterSpec_LoadBalancer : option LoadBalancerAccessSpec;
  ClusterSpec_Subnets : list ClusterSubnetSpec;
  ClusterSpec_KubernetesAPIAccess : list string
}.

#[global] Instance ClusterSubnetSpec_eq_dec : EqDecision ClusterSubnetSpec.
Proof. solve_decision. Defined.

(** ** The tasks of package awstasks *)

Record Subnet := { Subnet_Name : option string }.

Record VPC := { VPC_Name : option string }.

Record SecurityGroup := {
  SecurityGroup_Name : option string;
  SecurityGroup_VPC : option VPC;
  SecurityGroup_Description : option string;
  SecurityGroup_RemoveExtraRules : list string
}.

Record LoadBalancerListener := { LoadBalancerListener_InstancePort : Z }.

Record LoadBalancerHealthCheck := {
  LoadBalancerHealthCheck_Target : option string;
  LoadBalancerHealthCheck_HealthyThreshold : option Z;
  LoadBalancerHealthCheck_UnhealthyThreshold : option Z;
  LoadBalancerHealthCheck_Interval : option Z;
  LoadBalancerHealthCheck_Timeout : option Z
}.

Record LoadBalancerConnectionSettings := {
  LoadBalancerConnectionSettings_IdleTimeout : option Z
}.

Record LoadBalancer := {
  LoadBalancer_Name : option string;
  LoadBalancer_LoadBalancerName : option string;
  LoadBalancer_SecurityGroups : list SecurityGroup;
  LoadBalancer_Subnets : list Subnet;
  LoadBalancer_Listeners : gmap string LoadBalancerListener;
  LoadBalancer_HealthCheck : option LoadBalancerHealthCheck;
  LoadBalancer_ConnectionSettings : option LoadBalancerConnectionSettings;
  LoadBalancer_Scheme : option string
}.

Record SecurityGroupRule := {
  SecurityGroupRule_Name : option string;
  SecurityGroupRule_SecurityGroup : option SecurityGroup;
  SecurityGroupRule_CIDR : option string;
  SecurityGroupRule_Protocol : option string;
  SecurityGroupRule_FromPort : option Z;
  SecurityGroupRule_ToPort : option Z;
  SecurityGroupRule_SourceGroup : option SecurityGroup;
  SecurityGroupRule_Egress : option bool
}.

Record AutoscalingGroup := { AutoscalingGroup_Name : option string }.

Record LoadBalancerAttachment := {
  LoadBalancerAttachment_Name : option string;
  LoadBalancerAttachment_LoadBalancer : option LoadBalancer;
  LoadBalancerAttachment_AutoscalingGroup : option AutoscalingGroup
}.

(** [fi.Task]: the four kinds of task this builder adds. *)
Inductive Task :=
| TaskLoadBalancer (t : LoadBalancer)
| TaskSecurityGroup (t : SecurityGroup)
| TaskSecurityGroupRule (t : SecurityGroupRule)
| TaskLoadBalancerAttachment (t : LoadBalancerAttachment).

(** ** The receiver *)

(** Modelled from the spec: [KopsModelContext] is declared in
    pkg/model/context.go together with its helper methods, which this file
    only calls.  The receiver is the cluster specification plus what each
    helper returns on it; a helper with arguments is a function field.  A
    link is the named reference the helper builds; [LinkToSubnet] receives a
    pointer, which Go allows to be nil. *)
Record KopsModelContext := {
  Cluster_Spec : ClusterSpec;
  UseLoadBalancerForAPI : bool;
  MasterInstanceGroups : list InstanceGroup;
  ClusterName : string;
  GetELBName32 : string -> string;
  ELBSecurityGroupName : string -> string;
  LinkToSubnet : option ClusterSubnetSpec -> Subnet;
  LinkToELBSecurityGroup : string -> SecurityGroup;
  LinkToVPC : VPC;
  LinkToSecurityGroup : string -> SecurityGroup;
  LinkToELB : string -> LoadBalancer;
  LinkToAutoscalingGroup : InstanceGroup -> AutoscalingGroup
}.

(** ** Effects: the task collection, the log, errors and panics *)

(** A call [fmt.Errorf(format, args...)]: the format and the values it names. *)
Inductive error := Errorf (format : string) (args : list string).

(** A call [glog.V(level).Infof(format, args...)]. *)
Inductive LogEntry := V_Infof (level : Z) (format : string) (args : list string).

(** The [Name] of a task, the field every kind of task has. *)
Definition taskName (t : Task) : option string :=
  match t with
  | TaskLoadBalancer t => LoadBalancer_Name t
  | TaskSecurityGroup t => SecurityGroup_Name t
  | TaskSecurityGroupRule t => SecurityGroupRule_Name t
  | TaskLoadBalancerAttachment t => LoadBalancerAttachment_Name t
  end.

(** Modelled from the spec: [fi.ModelBuilderContext] is declared in
    upup/pkg/fi, and this file only calls its [AddTask].  The collection is
    an insertion-ordered mapping from task name to task, with one entry for
    a name: inserting a task whose name the mapping has already leaves the
    mapping as it is, which the collection treats as a no-op merge or as an
    error of its own. *)
Definition TaskGraph : Type := list (option string * Task).

Definition TaskGraph_names (g : TaskGraph) : list (option string) := map fst g.

Definition TaskGraph_has (g : TaskGraph) (name : option string) : bool :=
  bool_decide (name ∈ TaskGraph_names g).

(** The mapping after the insertion of [t]. *)
Definition TaskGraph_insert (g : TaskGraph) (t : Task) : TaskGraph :=
  if TaskGraph_has g (taskName t) then g else g ++ [(taskName t, t)].

(** Modelled from the spec: what a builder leaves behind.  [Tasks] is the
    sequence of the tasks the builders have handed to [AddTask], in the
    order of the calls, which only grows; [Graph] is the mapping of the
    collection; [Repeated] holds the tasks that did not enter the mapping
    because it had their name, in the order of the calls.  The log of the
    process is kept next to them. *)
Record World := {
  Tasks : list Task;
  Graph : TaskGraph;
  Repeated : list Task;
  Log : list LogEntry
}.

(** How a call ends: it returns a value, it returns a non-nil [error], or the
    Go runtime panics. *)
Inductive Result (A : Type) :=
| Return (a : A)
| Fail (e : error)
| Panic (msg : string).
Arguments Return {A} a.
Arguments Fail {A} e.
Arguments Panic {A} msg.

Definition M (A : Type) : Type := World -> Result A * World.

#[global] Instance M_ret : MRet M := fun A (a : A) w => (Return a, w).

#[global] Instance M_bind : MBind M := fun A B (f : A -> M B) (m : M A) w =>
  match m w with
  | (Return a, w') => f a w'
  | (Fail e, w') => (Fail e, w')
  | (Panic msg, w') => (Panic msg, w')
  end.

Definition ret {A} (a : A) : M A := mret a.

Definition return_error {A} (e : error) : M A := fun w => (Fail e, w).

Definition panic {A} (msg : string) : M A := fun w => (Panic msg, w).

(** Modelled from the spec: [c.AddTask(t)] hands [t] to the collection,
    which inserts it under its name.  The call has no result in the source:
    what the collection makes of a name it has already does not reach the
    caller. *)
Definition AddTask (t : Task) : M unit :=
  fun w =>
    (Return tt,
     {| Tasks := Tasks w ++ [t];
        Graph := TaskGraph_insert (Graph w) t;
        Repeated :=
          Repeated w ++ (if TaskGraph_has (Graph w) (taskName t) then [t] else []);
        Log := Log w |}).

Definition glog_V_Infof (level : Z) (format : string) (args : list string) : M unit :=
  fun w =>
    (Return tt,
     {| Tasks := Tasks w;
        Graph := Graph w;
        Repeated := Repeated w;
        Log := Log w ++ [V_Infof level format args] |}).

(** [a[i]] on a slice: the runtime panics when [i] is out of range. *)
Definition index {A} (a : list A) (i : nat) : M A :=
  match a !! i with
  | Some x => ret x
  | None => panic "index out of range"
  end.

(** [for _, x := range l { body x }] over a slice. *)
Fixpoint for_range {A} (l : list A) (body : A -> M unit) : M unit :=
  match l with
  | [] => ret tt
  | x :: rest => body x ;; for_range rest body
  end.

(** ** Scoring and sorting *)

Record scoredSubnet := {
  score : Z;
  subnet : ClusterSubnetSpec
}.

(** [ByScoreDescending.Less], on the two elements it indexes. *)
Definition Less (ai aj : scoredSubnet) : bool :=
  if negb (score ai =? score aj)%Z then
    negb (score ai <? score aj)%Z
  else
    String.ltb (ClusterSubnetSpec_Name (subnet ai)) (ClusterSubnetSpec_Name (subnet aj)).

(** [sort.Sort] of the Go library, as the insertion sort it runs on a short
    slice: the element at [i] moves left, by [Swap(j, j-1)], while
    [Less(j, j-1)].  [sorted_rev] is the sorted part of the slice, from right
    to left. *)
Fixpoint insertion_step (x : scoredSubnet) (sorted_rev : list scoredSubnet)
  : list scoredSubnet :=
  match sorted_rev with
  | [] => [x]
  | y :: rest => if Less x y then y :: insertion_step x rest else x :: sorted_rev
  end.

Definition sort_Sort (a : list scoredSubnet) : list scoredSubnet :=
  rev (fold_left (fun sorted_rev x => insertion_step x sorted_rev) a []).

(** The set built by the two loops over [b.MasterInstanceGroups()]. *)
Definition migSubnets (b : KopsModelContext) : gset string :=
  fold_left
    (fun migSubnets ig =>
       fold_left (fun migSubnets subnet => {[subnet]} ∪ migSubnets)
                 (InstanceGroup_Subnets ig) migSubnets)
    (MasterInstanceGroups b) ∅.

(** The body of the scoring loop, for one subnet. *)
Definition scoreSubnet (migSubnets : gset string) (subnet : ClusterSubnetSpec) : scoredSubnet :=
  let score := 0 in
  let score :=
    if bool_decide (ClusterSubnetSpec_Name subnet ∈ migSubnets) then score + 1 else score in
  let score :=
    if String.eqb (ClusterSubnetSpec_Type subnet) SubnetTypeUtility then score + 1 else score in
  {| score := score; subnet := subnet |}.

Definition chooseBestSubnetForELB (b : KopsModelContext) (zone : string)
    (subnets : list ClusterSubnetSpec) : M (option ClusterSubnetSpec) :=
  match subnets with
  | [] => ret None
  | [subnet0] => ret (Some subnet0)
  | _ =>
    let migSubnets := migSubnets b in
    let scoredSubnets := map (scoreSubnet migSubnets) subnets in
    let scoredSubnets := sort_Sort scoredSubnets in
    s0 ← index scoredSubnets 0 ;
    s1 ← index scoredSubnets 1 ;
    (if (score s0 =? score s1)%Z then
       glog_V_Infof 2
         "Making arbitrary choice between subnets in zone %q to attach to ELB (%q vs %q)"
         [zone; ClusterSubnetSpec_Name (subnet s0); ClusterSubnetSpec_Name (subnet s1)]
     else ret tt) ;;
    ret (Some (subnet s0))
  end.

(** ** Build *)

(** [int64] arithmetic wraps around. *)
Definition int64_wrap (z : Z) : Z := (z + 2 ^ 63) mod 2 ^ 64 - 2 ^ 63.

(** [time.Duration] counts nanoseconds in an [int64]. *)
Definition time_Second : Z := 1000000000.
Definition time_Minute : Z := 60 * time_Second.
Definition LoadBalancerDefaultIdleTimeout : Z := 5 * time_Minute.

(** [elb.Scheme = scheme]. *)
Definition LoadBalancer_set_Scheme (elb : LoadBalancer) (scheme : option string) : LoadBalancer :=
  {| LoadBalancer_Name := LoadBalancer_Name elb;
     LoadBalancer_LoadBalancerName := LoadBalancer_LoadBalancerName elb;
     LoadBalancer_SecurityGroups := LoadBalancer_SecurityGroups elb;
     LoadBalancer_Subnets := LoadBalancer_Subnets elb;
     LoadBalancer_Listeners := LoadBalancer_Listeners elb;
     LoadBalancer_HealthCheck := LoadBalancer_HealthCheck elb;
     LoadBalancer_ConnectionSettings := LoadBalancer_ConnectionSettings elb;
     LoadBalancer_Scheme := scheme |}.

(** The first loop of [Build]: the subnets of the cluster that the requested
    load-balancer type can use, grouped by zone.  A lookup of a key the map
    does not have gives the nil slice. *)
Fixpoint subnetsByZone_loop (lbSpec_Type : string) (Subnets : list ClusterSubnetSpec)
    (subnetsByZone : gmap string (list ClusterSubnetSpec))
  : M (gmap string (list ClusterSubnetSpec)) :=
  match Subnets with
  | [] => ret subnetsByZone
  | subnet :: rest =>
    let add :=
      <[ClusterSubnetSpec_Zone subnet :=
          default [] (subnetsByZone !! ClusterSubnetSpec_Zone subnet) ++ [subnet]]>
        subnetsByZone in
    if String.eqb (ClusterSubnetSpec_Type subnet) SubnetTypePublic
       || String.eqb (ClusterSubnetSpec_Type subnet) SubnetTypeUtility then
      if negb (String.eqb lbSpec_Type LoadBalancerTypePublic) then
        subnetsByZone_loop lbSpec_Type rest subnetsByZone
      else
        subnetsByZone_loop lbSpec_Type rest add
    else if String.eqb (ClusterSubnetSpec_Type subnet) SubnetTypePrivate then
      if negb (String.eqb lbSpec_Type LoadBalancerTypeInternal) then
        subnetsByZone_loop lbSpec_Type rest subnetsByZone
      else
        subnetsByZone_loop lbSpec_Type rest add
    else
      return_error (Errorf "subnet %q had unknown type %q"
                      [ClusterSubnetSpec_Name subnet; ClusterSubnetSpec_Type subnet])
  end.

(** The second loop of [Build], over the entries of the map in the order the
    [range] visits them. *)
Fixpoint elbSubnets_loop (b : KopsModelContext)
    (entries : list (string * list ClusterSubnetSpec)) (elbSubnets : list Subnet)
  : M (list Subnet) :=
  match entries with
  | [] => ret elbSubnets
  | (zone, subnets) :: rest =>
    subnet ← chooseBestSubnetForELB b zone subnets ;
    elbSubnets_loop b rest (elbSubnets ++ [LinkToSubnet b subnet])
  end.

(** The struct literals of [Build], one definition each. *)

(** The load balancer, before its [Scheme] is set; [idleTimeoutSeconds] is
    [int64(idleTimeout.Seconds())]. *)
Definition apiLoadBalancer (b : KopsModelContext) (elbSubnets : list Subnet)
    (idleTimeoutSeconds : Z) : LoadBalancer :=
  {| LoadBalancer_Name := Some ("api." +:+ ClusterName b);
     LoadBalancer_LoadBalancerName := Some (GetELBName32 b "api");
     LoadBalancer_SecurityGroups := [LinkToELBSecurityGroup b "api"];
     LoadBalancer_Subnets := elbSubnets;
     LoadBalancer_Listeners :=
       {[ "443" := {| LoadBalancerListener_InstancePort := 443 |} ]};
     LoadBalancer_HealthCheck :=
       Some {| LoadBalancerHealthCheck_Target := Some "TCP:443";
               LoadBalancerHealthCheck_Timeout := Some 5;
               LoadBalancerHealthCheck_Interval := Some 10;
               LoadBalancerHealthCheck_HealthyThreshold := Some 2;
               LoadBalancerHealthCheck_UnhealthyThreshold := Some 2 |};
     LoadBalancer_ConnectionSettings :=
       Some {| LoadBalancerConnectionSettings_IdleTimeout := Some idleTimeoutSeconds |};
     LoadBalancer_Scheme := None |}.

(** The security group of the load balancer. *)
Definition elbSecurityGroup (b : KopsModelContext) : SecurityGroup :=
  {| SecurityGroup_Name := Some (ELBSecurityGroupName b "api");
     SecurityGroup_VPC := Some (LinkToVPC b);
     SecurityGroup_Description := Some "Security group for api ELB";
     SecurityGroup_RemoveExtraRules := ["port=443"] |}.

(** The egress rule of the load balancer. *)
Definition egressRule (b : KopsModelContext) : SecurityGroupRule :=
  {| SecurityGroupRule_Name := Some "api-elb-egress";
     SecurityGroupRule_SecurityGroup := Some (LinkToELBSecurityGroup b "api");
     SecurityGroupRule_CIDR := Some "0.0.0.0/0";
     SecurityGroupRule_Protocol := None;
     SecurityGroupRule_FromPort := None;
     SecurityGroupRule_ToPort := None;
     SecurityGroupRule_SourceGroup := None;
     SecurityGroupRule_Egress := Some true |}.

(** The ingress rule of one CIDR of [KubernetesAPIAccess]. *)
Definition ingressRule (b : KopsModelContext) (cidr : string) : SecurityGroupRule :=
  {| SecurityGroupRule_Name := Some ("https-api-elb-" +:+ cidr);
     SecurityGroupRule_SecurityGroup := Some (LinkToELBSecurityGroup b "api");
     SecurityGroupRule_CIDR := Some cidr;
     SecurityGroupRule_Protocol := Some "tcp";
     SecurityGroupRule_FromPort := Some 443;
     SecurityGroupRule_ToPort := Some 443;
     SecurityGroupRule_SourceGroup := None;
     SecurityGroupRule_Egress := None |}.

(** The rule that lets the load balancer reach the masters. *)
Definition masterRule (b : KopsModelContext) : SecurityGroupRule :=
  {| SecurityGroupRule_Name := Some "https-elb-to-master";
     SecurityGroupRule_SecurityGroup := Some (LinkToSecurityGroup b InstanceGroupRoleMaster);
     SecurityGroupRule_CIDR := None;
     SecurityGroupRule_Protocol := Some "tcp";
     SecurityGroupRule_FromPort := Some 443;
     SecurityGroupRule_ToPort := Some 443;
     SecurityGroupRule_SourceGroup := Some (LinkToELBSecurityGroup b "api");
     SecurityGroupRule_Egress := None |}.

(** The attachment of one master instance group. *)
Definition attachment (b : KopsModelContext) (ig : InstanceGroup) : LoadBalancerAttachment :=
  {| LoadBalancerAttachment_Name := Some ("api-" +:+ InstanceGroup_Name ig);
     LoadBalancerAttachment_LoadBalancer := Some (LinkToELB b "api");
     LoadBalancerAttachment_AutoscalingGroup := Some (LinkToAutoscalingGroup b ig) |}.

Section Build.

(** The Go runtime visits the entries of a map in an order it does not
    specify: [range_order] is the order of one run, as a rearrangement of
    the entries of the map. *)
Variable range_order :
  list (string * list ClusterSubnetSpec) -> list (string * list ClusterSubnetSpec).

(** [int64(d.Seconds())] on a [time.Duration]: floating-point code of the Go
    library, taken as it is. *)
Variable Duration_Seconds_int64 : Z -> Z.

Definition Build (b : KopsModelContext) : M unit :=
  if negb (UseLoadBalancerForAPI b) then ret tt else
  match ClusterSpec_LoadBalancer (Cluster_Spec b) with
  | None => ret tt
  | Some lbSpec =>
    let lbSpec_Type := LoadBalancerAccessSpec_Type lbSpec in
    (if String.eqb lbSpec_Type LoadBalancerTypeInternal
        || String.eqb lbSpec_Type LoadBalancerTypePublic
     then ret tt
     else return_error (Errorf "unhandled LoadBalancer type %q" [lbSpec_Type])) ;;
    subnetsByZone ←
      subnetsByZone_loop lbSpec_Type (ClusterSpec_Subnets (Cluster_Spec b)) ∅ ;
    elbSubnets ← elbSubnets_loop b (range_order (map_to_list subnetsByZone)) [] ;
    let idleTimeout :=
      match LoadBalancerAccessSpec_IdleTimeoutSeconds lbSpec with
      | Some seconds => int64_wrap (time_Second * seconds)
      | None => LoadBalancerDefaultIdleTimeout
      end in
    let elb := apiLoadBalancer b elbSubnets (Duration_Seconds_int64 idleTimeout) in
    elb ←
      (if String.eqb lbSpec_Type LoadBalancerTypeInternal then
         ret (LoadBalancer_set_Scheme elb (Some "internal"))
       else if String.eqb lbSpec_Type LoadBalancerTypePublic then
         ret (LoadBalancer_set_Scheme elb None)
       else return_error (Errorf "unknown elb Type: %q" [lbSpec_Type])) ;
    AddTask (TaskLoadBalancer elb) ;;
    AddTask (TaskSecurityGroup (elbSecurityGroup b)) ;;
    AddTask (TaskSecurityGroupRule (egressRule b)) ;;
    for_range (ClusterSpec_KubernetesAPIAccess (Cluster_Spec b))
      (fun cidr => AddTask (TaskSecurityGroupRule (ingressRule b cidr))) ;;
    AddTask (TaskSecurityGroupRule (masterRule b)) ;;
    for_range (MasterInstanceGroups b)
      (fun ig => AddTask (TaskLoadBalancerAttachment (attachment b ig))) ;;
    ret tt
  end.

End Build.

(** ** Definitions used to state the properties *)

Definition emptyWorld : World :=
  {| Tasks := []; Graph := []; Repeated := []; Log := [] |}.

(** The load-balancer types the first switch of [Build] accepts. *)
Definition validLoadBalancerType (lbSpec_Type : string) : bool :=
  String.eqb lbSpec_Type LoadBalancerTypeInternal
  || String.eqb lbSpec_Type LoadBalancerTypePublic.

(** The subnet types the switch of the first loop accepts. *)
Definition knownSubnetType (subnet : ClusterSubnetSpec) : bool :=
  String.eqb (ClusterSubnetSpec_Type subnet) SubnetTypePublic
  || String.eqb (ClusterSubnetSpec_Type subnet) SubnetTypeUtility
  || String.eqb (ClusterSubnetSpec_Type subnet) SubnetTypePrivate.

(** The subnets the first loop keeps for a load balancer of the given type. *)
Definition compatible (lbSpec_Type : string) (subnet : ClusterSubnetSpec) : bool :=
  if String.eqb (ClusterSubnetSpec_Type subnet) SubnetTypePublic
     || String.eqb (ClusterSubnetSpec_Type subnet) SubnetTypeUtility
  then String.eqb lbSpec_Type LoadBalancerTypePublic
  else if String.eqb (ClusterSubnetSpec_Type subnet) SubnetTypePrivate
  then String.eqb lbSpec_Type LoadBalancerTypeInternal
  else false.

(** The score of a subnet, as the scoring loop computes it. *)
Definition scoreOf (b : KopsModelContext) (s : ClusterSubnetSpec) : Z :=
  score (scoreSubnet (migSubnets b) s).

(** A task is an ingress rule from a CIDR: a rule with a CIDR that is not an
    egress rule. *)
Definition isIngressRule (t : Task) : bool :=
  match t with
  | TaskSecurityGroupRule r =>
    match SecurityGroupRule_CIDR r, SecurityGroupRule_Egress r with
    | Some _, None => true
    | _, _ => false
    end
  | _ => false
  end.

(** The load-balancer tasks of a collection. *)
Definition loadBalancers (ts : list Task) : list LoadBalancer :=
  omap (fun t => match t with TaskLoadBalancer elb => Some elb | _ => None end) ts.

(** [elb] with its [Subnets] replaced. *)
Definition LoadBalancer_set_Subnets (elb : LoadBalancer) (subnets : list Subnet) : LoadBalancer :=
  {| LoadBalancer_Name := LoadBalancer_Name elb;
     LoadBalancer_LoadBalancerName := LoadBalancer_LoadBalancerName elb;
     LoadBalancer_SecurityGroups := LoadBalancer_SecurityGroups elb;
     LoadBalancer_Subnets := subnets;
     LoadBalancer_Listeners := LoadBalancer_Listeners elb;
     LoadBalancer_HealthCheck := LoadBalancer_HealthCheck elb;
     LoadBalancer_ConnectionSettings := LoadBalancer_ConnectionSettings elb;
     LoadBalancer_Scheme := LoadBalancer_Scheme elb |}.

(** Two tasks agree up to the order of the subnets of a load balancer: every
    other field is the same, and the two subnet lists hold the same links. *)
Definition sameTask (t1 t2 : Task) : Prop :=
  match t1, t2 with
  | TaskLoadBalancer e1, TaskLoadBalancer e2 =>
    LoadBalancer_Subnets e1 ≡ₚ LoadBalancer_Subnets e2
    ∧ LoadBalancer_set_Subnets e1 [] = LoadBalancer_set_Subnets e2 []
  | _, _ => t1 = t2
  end.

(** A slice is sorted when no element is [Less] than one before it. *)
Definition sortedByScoreDescending (a : list scoredSubnet) : Prop :=
  StronglySorted (fun x y => Less y x = false) a.

(** The world after some more log entries. *)
Definition logged (w : World) (entries : list LogEntry) : World :=
  {| Tasks := Tasks w; Graph := Graph w; Repeated := Repeated w;
     Log := Log w ++ entries |}.

(** The tasks of [ts] that do not enter the mapping [g] when the tasks of
    [ts] are inserted one after the other. *)
Fixpoint repeatedTasks (g : TaskGraph) (ts : list Task) : list Task :=
  match ts with
  | [] => []
  | t :: rest =>
    (if TaskGraph_has g (taskName t) then [t] else [])
    ++ repeatedTasks (TaskGraph_insert g t) rest
  end.

(** The world after some more calls of [AddTask]. *)
Definition added (w : World) (ts : list Task) : World :=
  {| Tasks := Tasks w ++ ts;
     Graph := fold_left TaskGraph_insert ts (Graph w);
     Repeated := Repeated w ++ repeatedTasks (Graph w) ts;
     Log := Log w |}.

(** [s] is a best subnet of [subnets]: none of them sorts before it. *)
Definition isBest (b : KopsModelContext) (subnets : list ClusterSubnetSpec)
    (s : ClusterSubnetSpec) : Prop :=
  s ∈ subnets
  /\ forall x, x ∈ subnets ->
       Less (scoreSubnet (migSubnets b) x) (scoreSubnet (migSubnets b) s) = false.

(** The subnet [chooseBestSubnetForELB] returns, without the effects. *)
Definition bestSubnet (b : KopsModelContext) (subnets : list ClusterSubnetSpec)
  : option ClusterSubnetSpec :=
  match subnets with
  | [] => None
  | [subnet0] => Some subnet0
  | _ => subnet <$> head (sort_Sort (map (scoreSubnet (migSubnets b)) subnets))
  end.

(** One more subnet in the map of the first loop of [Build]. *)
Definition addSubnet (subnetsByZone : gmap string (list ClusterSubnetSpec))
    (subnet : ClusterSubnetSpec) : gmap string (list ClusterSubnetSpec) :=
  <[ClusterSubnetSpec_Zone subnet :=
      default [] (subnetsByZone !! ClusterSubnetSpec_Zone subnet) ++ [subnet]]>
    subnetsByZone.

(** The map the first loop of [Build] builds when it does not fail. *)
Definition groupByZone (lbSpec_Type : string) (Subnets : list ClusterSubnetSpec)
  : gmap string (list ClusterSubnetSpec) :=
  fold_left addSubnet (List.filter (compatible lbSpec_Type) Subnets) ∅.

(** The subnets of one zone. *)
Definition inZone (zone : string) (subnet : ClusterSubnetSpec) : bool :=
  String.eqb (ClusterSubnetSpec_Zone subnet) zone.

(** The idle timeout of [Build], a [time.Duration]. *)
Definition idleTimeoutOf (lbSpec : LoadBalancerAccessSpec) : Z :=
  match LoadBalancerAccessSpec_IdleTimeoutSeconds lbSpec with
  | Some seconds => int64_wrap (time_Second * seconds)
  | None => LoadBalancerDefaultIdleTimeout
  end.

(** The [Scheme] the second switch of [Build] sets. *)
Definition schemeOf (lbSpec_Type : string) : option string :=
  if String.eqb lbSpec_Type LoadBalancerTypeInternal then Some "internal" else None.

(** The tasks of a pass of [Build] that reaches its end, in the order of the
    calls of [AddTask], for the subnet links [elbSubnets] and the idle timeout
    [idleTimeoutSeconds] in seconds. *)
Definition builtTasks (b : KopsModelContext) (lbSpec : LoadBalancerAccessSpec)
    (elbSubnets : list Subnet) (idleTimeoutSeconds : Z) : list Task :=
  TaskLoadBalancer
    (LoadBalancer_set_Scheme (apiLoadBalancer b elbSubnets idleTimeoutSeconds)
       (schemeOf (LoadBalancerAccessSpec_Type lbSpec)))
  :: TaskSecurityGroup (elbSecurityGroup b)
  :: TaskSecurityGroupRule (egressRule b)
  :: map (fun cidr => TaskSecurityGroupRule (ingressRule b cidr))
       (ClusterSpec_KubernetesAPIAccess (Cluster_Spec b))
  ++ TaskSecurityGroupRule (masterRule b)
  :: map (fun ig => TaskLoadBalancerAttachment (attachment b ig)) (MasterInstanceGroups b).

(** The links of the load balancer, for the entries of the map in the order
    the [range] visits them. *)
Definition linksOf (b : KopsModelContext)
    (entries : list (string * list ClusterSubnetSpec)) : list Subnet :=
  map (fun entry => LinkToSubnet b (bestSubnet b (snd entry))) entries.

(** The name identifies the subnet, among the subnets of a slice: two
    subnets of the slice with the same name are the same subnet. *)
Definition namesIdentify (subnets : list ClusterSubnetSpec) : Prop :=
  forall x y, x ∈ subnets -> y ∈ subnets ->
    ClusterSubnetSpec_Name x = ClusterSubnetSpec_Name y -> x = y.

(** A subnet name is in the subnet list of some master instance group. *)
Definition inMasterSubnets (b : KopsModelContext) (name : string) : Prop :=
  exists ig, ig ∈ MasterInstanceGroups b /\ name ∈ InstanceGroup_Subnets ig.

(** The subnets the second loop of [Build] links, one per entry that has a
    best subnet. *)
Definition chosenSubnets (b : KopsModelContext)
    (entries : list (string * list ClusterSubnetSpec)) : list ClusterSubnetSpec :=
  omap (fun entry => bestSubnet b (snd entry)) entries.

(** Two subnets of the slice, at different places, have the same score, and
    no subnet of the slice has a higher one. *)
Definition tiedAtTop (b : KopsModelContext) (subnets : list ClusterSubnetSpec) : Prop :=
  exists (i j : nat) (x y : ClusterSubnetSpec),
    i <> j /\ subnets !! i = Some x /\ subnets !! j = Some y
    /\ scoreOf b x = scoreOf b y
    /\ forall z, z ∈ subnets -> scoreOf b z <= scoreOf b x.

(** The names of the security-group rules of a collection, in its order. *)
Definition ruleNames (ts : list Task) : list (option string) :=
  omap (fun t => match t with
                 | TaskSecurityGroupRule r => Some (SecurityGroupRule_Name r)
                 | _ => None
                 end) ts.

(** The names of the load-balancer attachments of a collection. *)
Definition attachmentNames (ts : list Task) : list (option string) :=
  omap (fun t => match t with
                 | TaskLoadBalancerAttachment t => Some (LoadBalancerAttachment_Name t)
                 | _ => None
                 end) ts.

(** The candidates of a zone: the compatible subnets of the zone, in the
    order of the cluster specification. *)
Definition candidates (lbSpec_Type : string) (Subnets : list ClusterSubnetSpec)
    (zone : string) : list ClusterSubnetSpec :=
  List.filter (inZone zone) (List.filter (compatible lbSpec_Type) Subnets).

(** ** The methods of [ByScoreDescending] on a slice *)

(** [a[i]] with an index of type [int]: the runtime panics when [i] is
    negative or not below the length. *)
Definition index_int {A} (a : list A) (i : Z) : M A :=
  if (0 <=? i) && (i <? Z.of_nat (length a)) then index a (Z.to_nat i)
  else panic "index out of range".

(** [ByScoreDescending.Len]. *)
Definition ByScoreDescending_Len (a : list scoredSubnet) : Z := Z.of_nat (length a).

(** [ByScoreDescending.Less], with its two index expressions. *)
Definition ByScoreDescending_Less (a : list scoredSubnet) (i j : Z) : M bool :=
  ai ← index_int a i ;
  aj ← index_int a j ;
  ret (Less ai aj).

(** [ByScoreDescending.Swap]: [a[i], a[j] = a[j], a[i]].  The two operands on
    the right are read first, then [a[i]] and [a[j]] are assigned; the slice
    after the call is what the method returns here. *)
Definition ByScoreDescending_Swap (a : list scoredSubnet) (i j : Z)
  : M (list scoredSubnet) :=
  aj ← index_int a j ;
  ai ← index_int a i ;
  ret (<[Z.to_nat j := ai]> (<[Z.to_nat i := aj]> a)).

(** The insertion sort of package sort, on the whole slice, calling the three
    methods:
    [for i := 1; i < Len(); i++ { for j := i; j > 0 && Less(j, j-1); j-- { Swap(j, j-1) } }].
    The inner loop, from [j]: *)
Fixpoint insertionSort_inner (a : list scoredSubnet) (j : nat) : M (list scoredSubnet) :=
  match j with
  | O => ret a
  | S j' =>
    less ← ByScoreDescending_Less a (Z.of_nat j) (Z.of_nat j - 1) ;
    if (less : bool) then
      a ← ByScoreDescending_Swap a (Z.of_nat j) (Z.of_nat j - 1) ;
      insertionSort_inner a j'
    else ret a
  end.

(** The outer loop, over the values [i] takes. *)
Fixpoint insertionSort_outer (a : list scoredSubnet) (indices : list nat)
  : M (list scoredSubnet) :=
  match indices with
  | [] => ret a
  | i :: indices => a ← insertionSort_inner a i ; insertionSort_outer a indices
  end.

Definition insertionSort (a : list scoredSubnet) : M (list scoredSubnet) :=
  insertionSort_outer a (seq 1 (Z.to_nat (ByScoreDescending_Len a) - 1)).

(** ** A cluster to run on *)

(** A receiver whose helpers name the links after what they point to. *)
Definition exampleContext (useLoadBalancer : bool) (lbSpec : option LoadBalancerAccessSpec)
    (subnets : list ClusterSubnetSpec) (cidrs : list string)
    (masters : list InstanceGroup) : KopsModelContext :=
  {| Cluster_Spec :=
       {| ClusterSpec_LoadBalancer := lbSpec;
          ClusterSpec_Subnets := subnets;
          ClusterSpec_KubernetesAPIAccess := cidrs |};
     UseLoadBalancerForAPI := useLoadBalancer;
     MasterInstanceGroups := masters;
     ClusterName := "k.example.com";
     GetELBName32 := fun prefix => prefix +:+ "-k-example-com";
     ELBSecurityGroupName := fun prefix => prefix +:+ "-elb.k.example.com";
     LinkToSubnet := fun subnet => {| Subnet_Name := ClusterSubnetSpec_Name <$> subnet |};
     LinkToELBSecurityGroup := fun prefix =>
       {| SecurityGroup_Name := Some (prefix +:+ "-elb.k.example.com");
          SecurityGroup_VPC := None;
          SecurityGroup_Description := None;
          SecurityGroup_RemoveExtraRules := [] |};
     LinkToVPC := {| VPC_Name := Some "k.example.com" |};
     LinkToSecurityGroup := fun role =>
       {| SecurityGroup_Name := Some (role +:+ ".k.example.com");
          SecurityGroup_VPC := None;
          SecurityGroup_Description := None;
          SecurityGroup_RemoveExtraRules := [] |};
     LinkToELB := fun prefix =>
       {| LoadBalancer_Name := Some (prefix +:+ ".k.example.com");
          LoadBalancer_LoadBalancerName := None;
          LoadBalancer_SecurityGroups := [];
          LoadBalancer_Subnets := [];
          LoadBalancer_Listeners := ∅;
          LoadBalancer_HealthCheck := None;
          LoadBalancer_ConnectionSettings := None;
          LoadBalancer_Scheme := None |};
     LinkToAutoscalingGroup := fun ig =>
       {| AutoscalingGroup_Name := Some (InstanceGroup_Name ig) |} |}.

Definition subnetA : ClusterSubnetSpec :=
  {| ClusterSubnetSpec_Name := "A";
     ClusterSubnetSpec_Zone := "us-east-1a";
     ClusterSubnetSpec_Type := SubnetTypeUtility |}.

Definition subnetB : ClusterSubnetSpec :=
  {| ClusterSubnetSpec_Name := "B";
     ClusterSubnetSpec_Zone := "us-east-1a";
     ClusterSubnetSpec_Type := SubnetTypePublic |}.

Definition subnetC : ClusterSubnetSpec :=
  {| ClusterSubnetSpec_Name := "C";
     ClusterSubnetSpec_Zone := "us-east-1b";
     ClusterSubnetSpec_Type := SubnetTypePublic |}.

Definition masterOnB : InstanceGroup :=
  {| InstanceGroup_Name := "master-us-east-1a"; InstanceGroup_Subnets := ["B"] |}.

Definition publicLoadBalancer : LoadBalancerAccessSpec :=
  {| LoadBalancerAccessSpec_Type := LoadBalancerTypePublic;
     LoadBalancerAccessSpec_IdleTimeoutSeconds := None |}.

(** The seconds of a duration that is a whole number of seconds. *)
Definition wholeSeconds (d : Z) : Z := d `quot` time_Second.

Definition subnetX : ClusterSubnetSpec :=
  {| ClusterSubnetSpec_Name := "X";
     ClusterSubnetSpec_Zone := "us-east-1c";
     ClusterSubnetSpec_Type := "dmz" |}.

Definition apiAccess : list string := ["10.0.0.0/8"; "192.168.1.0/24"].

(** The cluster of the end-to-end scenario. *)
Definition scenarioCluster : KopsModelContext :=
  exampleContext true (Some publicLoadBalancer) [subnetA; subnetB] apiAccess [masterOnB].

(** A cluster with subnets in two zones. *)
Definition twoZoneCluster : KopsModelContext :=
  exampleContext true (Some publicLoadBalancer) [subnetA; subnetB; subnetC] apiAccess
    [masterOnB].

(** The cluster of the scenario, without a load balancer in front of the
    API. *)
Definition noLoadBalancerCluster : KopsModelContext :=
  exampleContext false None [subnetA; subnetB] apiAccess [masterOnB].

(** A cluster without a load balancer in front of the API, with a subnet of
    a type the builder does not know. *)
Definition noLoadBalancerUnknownSubnetCluster : KopsModelContext :=
  exampleContext false None [subnetA; subnetX] apiAccess [masterOnB].

(** A cluster with a subnet of a type the builder does not know. *)
Definition unknownSubnetCluster : KopsModelContext :=
  exampleContext true (Some publicLoadBalancer) [subnetA; subnetX] apiAccess [masterOnB].

(** A cluster with an internal load balancer and no private subnet. *)
Definition internalCluster : KopsModelContext :=
  exampleContext true
    (Some {| LoadBalancerAccessSpec_Type := LoadBalancerTypeInternal;
             LoadBalancerAccessSpec_IdleTimeoutSeconds := Some 60 |})
    [subnetA; subnetB; subnetC] apiAccess [masterOnB].

(** Two orders of iteration: the order of the entries, and its reverse. *)
Definition inOrder (entries : list (string * list ClusterSubnetSpec)) := entries.
Definition inReverse (entries : list (string * list ClusterSubnetSpec)) := rev entries.

(** The cluster of the scenario with two master instance groups, which list
    the subnet of the masters three times between them. *)
Definition masterOnBTwice : InstanceGroup :=
  {| InstanceGroup_Name := "master-us-east-1a-2"; InstanceGroup_Subnets := ["B"; "B"] |}.

Definition scenarioClusterTwoMasters : KopsModelContext :=
  exampleContext true (Some publicLoadBalancer) [subnetA; subnetB] apiAccess
    [masterOnBTwice; masterOnB].

(** A cluster with an internal load balancer and two private subnets in one
    zone, the masters on the one with the greater name. *)
Definition internalLoadBalancer : LoadBalancerAccessSpec :=
  {| LoadBalancerAccessSpec_Type := LoadBalancerTypeInternal;
     LoadBalancerAccessSpec_IdleTimeoutSeconds := Some 60 |}.

Definition subnetP : ClusterSubnetSpec :=
  {| ClusterSubnetSpec_Name := "P";
     ClusterSubnetSpec_Zone := "us-east-1a";
     ClusterSubnetSpec_Type := SubnetTypePrivate |}.

Definition subnetQ : ClusterSubnetSpec :=
  {| ClusterSubnetSpec_Name := "Q";
     ClusterSubnetSpec_Zone := "us-east-1a";
     ClusterSubnetSpec_Type := SubnetTypePrivate |}.

Definition masterOnQ : InstanceGroup :=
  {| InstanceGroup_Name := "master-us-east-1a"; InstanceGroup_Subnets := ["Q"] |}.

Definition privateCluster : KopsModelContext :=
  exampleContext true (Some internalLoadBalancer) [subnetP; subnetQ] apiAccess [masterOnQ].

(** A cluster with the masters in the other zone. *)
Definition masterOnC : InstanceGroup :=
  {| InstanceGroup_Name := "master-us-east-1b"; InstanceGroup_Subnets := ["C"] |}.

Definition masterOnCCluster : KopsModelContext :=
  exampleContext true (Some publicLoadBalancer) [subnetB; subnetA; subnetC] apiAccess
    [masterOnC].

(** The cluster with subnets in two zones, its subnets listed in the reverse
    order. *)
Definition twoZoneClusterReversed : KopsModelContext :=
  exampleContext true (Some publicLoadBalancer) [subnetC; subnetB; subnetA] apiAccess
    [masterOnB].

(** ** The order of Go on strings *)

Lemma string_compare_refl (s : string) : String.compare s s = Eq.
Proof.
  pose proof (String.compare_antisym s s) as H.
  destruct (String.compare s s); simpl in H; congruence.
Qed.

Lemma ascii_compare_lt_trans (a b c : ascii) :
  Ascii.compare a b = Lt -> Ascii.compare b c = Lt -> Ascii.compare a c = Lt.
Proof.
  unfold Ascii.compare. rewrite !N.compare_lt_iff. lia.
Qed.

Lemma string_compare_lt_trans (s1 s2 s3 : string) :
  String.compare s1 s2 = Lt -> String.compare s2 s3 = Lt -> String.compare s1 s3 = Lt.
Proof.
  revert s2 s3.
  induction s1 as [|a s1 IH]; intros [|b s2] [|c s3]; simpl; try congruence.
  destruct (Ascii.compare a b) eqn:Hab; try congruence.
  - apply Ascii.compare_eq_iff in Hab as ->.
    destruct (Ascii.compare b c) eqn:Hbc; try congruence.
    apply IH.
  - destruct (Ascii.compare b c) eqn:Hbc; try congruence.
    + apply Ascii.compare_eq_iff in Hbc as <-. now rewrite Hab.
    + now rewrite (ascii_compare_lt_trans a b c).
Qed.

Lemma string_ltb_irrefl (s : string) : String.ltb s s = false.
Proof. unfold String.ltb. now rewrite string_compare_refl. Qed.

Lemma string_ltb_trans (s1 s2 s3 : string) :
  String.ltb s1 s2 = true -> String.ltb s2 s3 = true -> String.ltb s1 s3 = true.
Proof.
  unfold String.ltb. intros H12 H23.
  destruct (String.compare s1 s2) eqn:E12; try discriminate.
  destruct (String.compare s2 s3) eqn:E23; try discriminate.
  now rewrite (string_compare_lt_trans s1 s2 s3).
Qed.

Lemma string_ltb_asym (s1 s2 : string) :
  String.ltb s1 s2 = true -> String.ltb s2 s1 = false.
Proof.
  unfold String.ltb. rewrite (String.compare_antisym s2 s1).
  destruct (String.compare s1 s2); simpl; congruence.
Qed.

(** Two strings neither of which is below the other are the same string. *)
Lemma string_ltb_total (s1 s2 : string) :
  String.ltb s1 s2 = false -> String.ltb s2 s1 = false -> s1 = s2.
Proof.
  unfold String.ltb. rewrite (String.compare_antisym s2 s1).
  destruct (String.compare s1 s2) eqn:E; simpl; try congruence.
  intros _ _. now apply String.compare_eq_iff.
Qed.

Lemma string_ltb_false_trans (s1 s2 s3 : string) :
  String.ltb s1 s2 = false -> String.ltb s2 s3 = false -> String.ltb s1 s3 = false.
Proof.
  intros H12 H23.
  destruct (String.ltb s1 s3) eqn:H13; [|reflexivity].
  destruct (String.ltb s2 s1) eqn:H21.
  - now rewrite (string_ltb_trans s2 s1 s3) in H23.
  - apply (string_ltb_total s1 s2) in H12 as ->; congruence.
Qed.

(** ** The order of [ByScoreDescending] *)

Section Less_order.

Implicit Types a b c : scoredSubnet.

Lemma Less_true a b :
  Less a b = true <->
  score b < score a
  \/ (score a = score b
      /\ String.ltb (ClusterSubnetSpec_Name (subnet a))
                    (ClusterSubnetSpec_Name (subnet b)) = true).
Proof.
  unfold Less.
  destruct (Z.eqb_spec (score a) (score b)) as [He|Hne]; simpl.
  - split; [intros H; right; auto | intros [H|[_ H]]; [lia | exact H]].
  - rewrite negb_true_iff, Z.ltb_ge. split; [intros H; left; lia | intros [H|[H _]]; lia].
Qed.

Lemma Less_false a b :
  Less a b = false <->
  score a < score b
  \/ (score a = score b
      /\ String.ltb (ClusterSubnetSpec_Name (subnet a))
                    (ClusterSubnetSpec_Name (subnet b)) = false).
Proof.
  unfold Less.
  destruct (Z.eqb_spec (score a) (score b)) as [He|Hne]; simpl.
  - split; [intros H; right; auto | intros [H|[_ H]]; [lia | exact H]].
  - rewrite negb_false_iff, Z.ltb_lt. split; [intros H; left; lia | intros [H|[H _]]; lia].
Qed.

Lemma Less_irrefl a : Less a a = false.
Proof. apply Less_false. right. split; [reflexivity | apply string_ltb_irrefl]. Qed.

Lemma Less_asym a b : Less a b = true -> Less b a = false.
Proof.
  rewrite Less_true, Less_false. intros [H|[H1 H2]]; [left; lia | right].
  split; [lia | now apply string_ltb_asym].
Qed.

(** "Not below" is transitive: [Less] is a strict weak order. *)
Lemma Less_false_trans a b c :
  Less a b = false -> Less b c = false -> Less a c = false.
Proof.
  rewrite !Less_false. intros [H1|[H1 N1]] [H2|[H2 N2]]; try (left; lia).
  right. split; [lia | eapply string_ltb_false_trans; eauto].
Qed.

(** Two elements neither of which is below the other have the same score
    and the same subnet name. *)
Lemma Less_false_antisym a b :
  Less a b = false -> Less b a = false ->
  score a = score b
  /\ ClusterSubnetSpec_Name (subnet a) = ClusterSubnetSpec_Name (subnet b).
Proof.
  rewrite !Less_false. intros [H1|[H1 N1]] [H2|[H2 N2]]; try lia.
  split; [exact H1 | now apply string_ltb_total].
Qed.

End Less_order.

(** ** [sort.Sort] returns a sorted rearrangement *)

Lemma insertion_step_Permutation x sorted_rev :
  insertion_step x sorted_rev ≡ₚ x :: sorted_rev.
Proof.
  induction sorted_rev as [|y rest IH]; simpl; [reflexivity|].
  destruct (Less x y); [|reflexivity].
  rewrite IH. apply Permutation_swap.
Qed.

Lemma insertion_step_sorted x sorted_rev :
  StronglySorted (fun y z => Less y z = false) sorted_rev ->
  StronglySorted (fun y z => Less y z = false) (insertion_step x sorted_rev).
Proof.
  induction sorted_rev as [|y rest IH]; simpl; intros Hs.
  - repeat constructor.
  - apply StronglySorted_cons in Hs as [Hy Hrest].
    destruct (Less x y) eqn:Hxy.
    + apply StronglySorted_cons. split; [|auto].
      rewrite insertion_step_Permutation. constructor; [|exact Hy].
      now apply Less_asym.
    + apply StronglySorted_cons. split.
      * constructor; [exact Hxy|].
        eapply Forall_impl; [exact Hy|]. intros z Hyz; simpl in Hyz.
        eapply Less_false_trans; eauto.
      * apply StronglySorted_cons. auto.
Qed.

Lemma insertion_fold_Permutation a acc :
  fold_left (fun sorted_rev x => insertion_step x sorted_rev) a acc ≡ₚ a ++ acc.
Proof.
  revert acc. induction a as [|x a IH]; intros acc; simpl; [reflexivity|].
  rewrite IH, insertion_step_Permutation. symmetry. apply Permutation_middle.
Qed.

Lemma insertion_fold_sorted a acc :
  StronglySorted (fun y z => Less y z = false) acc ->
  StronglySorted (fun y z => Less y z = false)
    (fold_left (fun sorted_rev x => insertion_step x sorted_rev) a acc).
Proof.
  revert acc. induction a as [|x a IH]; intros acc Hs; simpl; [exact Hs|].
  apply IH. now apply insertion_step_sorted.
Qed.

Lemma StronglySorted_rev {A} (R : relation A) (l : list A) :
  StronglySorted R l -> StronglySorted (flip R) (rev l).
Proof.
  induction l as [|x l IH]; simpl; intros Hs; [constructor|].
  apply StronglySorted_cons in Hs as [Hx Hl].
  apply StronglySorted_app_2; [| auto | repeat constructor].
  intros x1 x2 H1 H2. apply list_elem_of_singleton in H2 as ->.
  unfold flip. rewrite Forall_forall in Hx. apply Hx.
  apply list_elem_of_In. apply in_rev. now apply list_elem_of_In.
Qed.

Lemma sort_Sort_Permutation (a : list scoredSubnet) : sort_Sort a ≡ₚ a.
Proof.
  unfold sort_Sort. rewrite <- Permutation_rev, insertion_fold_Permutation.
  now rewrite app_nil_r.
Qed.

Lemma sort_Sort_sorted (a : list scoredSubnet) : sortedByScoreDescending (sort_Sort a).
Proof.
  unfold sort_Sort, sortedByScoreDescending.
  apply (StronglySorted_rev (fun y z => Less y z = false)).
  apply insertion_fold_sorted. constructor.
Qed.

Lemma sort_Sort_length (a : list scoredSubnet) : length (sort_Sort a) = length a.
Proof. apply Permutation_length, sort_Sort_Permutation. Qed.

(** On a slice in which no two different elements have the same score and
    the same subnet name, the sorted rearrangement is unique: every algorithm
    [sort.Sort] may run returns the slice [sort_Sort] returns. *)
Lemma sorted_rearrangement_unique (a a' : list scoredSubnet) :
  (forall x y, x ∈ a -> y ∈ a -> score x = score y ->
     ClusterSubnetSpec_Name (subnet x) = ClusterSubnetSpec_Name (subnet y) -> x = y) ->
  a' ≡ₚ a -> sortedByScoreDescending a' -> a' = sort_Sort a.
Proof.
  intros Hties Hp Hs.
  apply (StronglySorted_unique_strong (fun x y => Less y x = false)).
  - intros x y Hx Hy Hxy Hyx.
    rewrite Hp in Hx. rewrite sort_Sort_Permutation in Hy.
    destruct (Less_false_antisym _ _ Hyx Hxy) as [Hsc Hn]. now apply Hties.
  - exact Hs.
  - apply sort_Sort_sorted.
  - now rewrite sort_Sort_Permutation.
Qed.

(** The first element of a sorted rearrangement of [a] is an element of [a]
    that no element of [a] is [Less] than: whatever algorithm [sort.Sort]
    runs, this is what the caller relies on. *)
Lemma sorted_head_least (a a' : list scoredSubnet) (h : scoredSubnet) :
  a' ≡ₚ a -> sortedByScoreDescending a' -> head a' = Some h ->
  h ∈ a /\ forall x, x ∈ a -> Less x h = false.
Proof.
  intros Hp Hs Hh. destruct a' as [|h' t]; simpl in Hh; [discriminate|].
  injection Hh as ->.
  apply StronglySorted_cons in Hs as [Hall _].
  split.
  - rewrite <- Hp. left.
  - intros x Hx. rewrite <- Hp in Hx. apply elem_of_cons in Hx as [->|Hx].
    + apply Less_irrefl.
    + rewrite Forall_forall in Hall. now apply Hall.
Qed.

(** ** Running the monad *)

Lemma logged_nil w : logged w [] = w.
Proof. destruct w; unfold logged; simpl. now rewrite app_nil_r. Qed.

Lemma logged_logged w l1 l2 : logged (logged w l1) l2 = logged w (l1 ++ l2).
Proof. unfold logged; simpl. now rewrite app_assoc. Qed.

Lemma added_nil w : added w [] = w.
Proof. destruct w; unfold added; simpl. now rewrite !app_nil_r. Qed.

Lemma repeatedTasks_app g t1 t2 :
  repeatedTasks g (t1 ++ t2)
  = repeatedTasks g t1 ++ repeatedTasks (fold_left TaskGraph_insert t1 g) t2.
Proof.
  revert g. induction t1 as [|t t1 IH]; intros g; simpl; [reflexivity|].
  now rewrite IH, app_assoc.
Qed.

Lemma added_added w t1 t2 : added (added w t1) t2 = added w (t1 ++ t2).
Proof.
  unfold added; simpl.
  now rewrite fold_left_app, repeatedTasks_app, !app_assoc.
Qed.

Lemma bind_Return {A B} (m : M A) (f : A -> M B) (w w' : World) (a : A) :
  m w = (Return a, w') -> (m ≫= f) w = f a w'.
Proof. intros H. unfold mbind, M_bind. now rewrite H. Qed.

Lemma bind_Fail {A B} (m : M A) (f : A -> M B) (w w' : World) (e : error) :
  m w = (Fail e, w') -> (m ≫= f) w = (Fail e, w').
Proof. intros H. unfold mbind, M_bind. now rewrite H. Qed.

Lemma AddTask_run t w : AddTask t w = (Return tt, added w [t]).
Proof. unfold AddTask, added. simpl. now rewrite app_nil_r. Qed.

Lemma for_range_AddTask {A} (f : A -> Task) (l : list A) (w : World) :
  for_range l (fun x => AddTask (f x)) w = (Return tt, added w (map f l)).
Proof.
  revert w. induction l as [|x l IH]; intros w; simpl.
  - now rewrite added_nil.
  - erewrite bind_Return by apply AddTask_run.
    rewrite IH, added_added. reflexivity.
Qed.

(** One step of a sequence: the first computation returns, by one of the two
    lemmas on [AddTask] or else by evaluation, and the sequence goes on with
    its result. *)
Ltac run_bind :=
  erewrite bind_Return
    by first [apply AddTask_run | apply for_range_AddTask | reflexivity].

(** ** What [chooseBestSubnetForELB] returns *)

Lemma subnet_scoreSubnet mig s : subnet (scoreSubnet mig s) = s.
Proof. reflexivity. Qed.

(** The function never panics and never returns an error; it adds no task,
    and what it returns does not depend on the world or on the zone. *)
Lemma chooseBestSubnetForELB_run b zone subnets :
  exists entries, forall w,
    chooseBestSubnetForELB b zone subnets w
    = (Return (bestSubnet b subnets), logged w entries).
Proof.
  destruct subnets as [|x0 [|x1 rest]].
  - exists []. intros w. now rewrite logged_nil.
  - exists []. intros w. now rewrite logged_nil.
  - unfold chooseBestSubnetForELB, bestSubnet.
    set (scored := map (scoreSubnet (migSubnets b)) (x0 :: x1 :: rest)).
    assert (Hlen : length (sort_Sort scored) = S (S (length rest))).
    { rewrite sort_Sort_length. unfold scored. rewrite length_map. reflexivity. }
    cbv zeta. fold scored.
    destruct (sort_Sort scored) as [|s0 [|s1 sorted]] eqn:Hsort; try discriminate.
    destruct (score s0 =? score s1) eqn:Htie.
    + eexists. intros w.
      unfold index; simpl. unfold mbind, M_bind, ret, mret, M_ret, glog_V_Infof.
      rewrite Htie. reflexivity.
    + exists []. intros w.
      unfold index; simpl. unfold mbind, M_bind, ret, mret, M_ret.
      rewrite Htie. now rewrite logged_nil.
Qed.

(** On a slice that is not empty the function returns a best subnet. *)
Lemma bestSubnet_isBest b subnets :
  subnets <> [] -> exists s, bestSubnet b subnets = Some s /\ isBest b subnets s.
Proof.
  intros Hne. destruct subnets as [|x0 [|x1 rest]]; [congruence| |].
  - exists x0. split; [reflexivity|]. split; [left|].
    intros x Hx. apply list_elem_of_singleton in Hx as ->. apply Less_irrefl.
  - unfold bestSubnet.
    set (subnets := x0 :: x1 :: rest).
    set (scored := map (scoreSubnet (migSubnets b)) subnets).
    assert (Hlen : length (sort_Sort scored) = S (S (length rest))).
    { rewrite sort_Sort_length. unfold scored. rewrite length_map. reflexivity. }
    destruct (sort_Sort scored) as [|s0 sorted] eqn:Hsort; try discriminate.
    exists (subnet s0). split; [reflexivity|].
    destruct (sorted_head_least scored (sort_Sort scored) s0) as [Hin Hleast].
    + apply sort_Sort_Permutation.
    + apply sort_Sort_sorted.
    + now rewrite Hsort.
    + apply list_elem_of_In, in_map_iff in Hin as (y & <- & Hy).
      rewrite subnet_scoreSubnet. split; [now apply list_elem_of_In|].
      intros x Hx. apply Hleast. apply list_elem_of_In, in_map.
      now apply list_elem_of_In.
Qed.

Lemma bestSubnet_nil b : bestSubnet b [] = None.
Proof. reflexivity. Qed.

(** ** The two loops of [Build] *)

(** When every subnet has a type the switch knows, the first loop returns the
    compatible subnets grouped by zone, and leaves the world as it is. *)
Lemma subnetsByZone_loop_known lbSpec_Type Subnets subnetsByZone w :
  forallb knownSubnetType Subnets = true ->
  subnetsByZone_loop lbSpec_Type Subnets subnetsByZone w
  = (Return (fold_left addSubnet (List.filter (compatible lbSpec_Type) Subnets) subnetsByZone),
     w).
Proof.
  revert subnetsByZone. induction Subnets as [|s rest IH]; intros m Hall; simpl.
  - reflexivity.
  - simpl in Hall. apply andb_true_iff in Hall as [Hs Hrest].
    specialize (fun m' => IH m' Hrest).
    set (kept := List.filter (compatible lbSpec_Type) rest) in *.
    unfold knownSubnetType in Hs. unfold compatible.
    destruct (String.eqb (ClusterSubnetSpec_Type s) SubnetTypePublic
              || String.eqb (ClusterSubnetSpec_Type s) SubnetTypeUtility) eqn:Hpub.
    + destruct (String.eqb lbSpec_Type LoadBalancerTypePublic); simpl; apply IH.
    + simpl in Hs. rewrite Hs.
      destruct (String.eqb lbSpec_Type LoadBalancerTypeInternal); simpl; apply IH.
Qed.

(** When some subnet has a type the switch does not know, the first loop
    returns the error of the first such subnet, and leaves the world as it
    is. *)
Lemma subnetsByZone_loop_unknown lbSpec_Type Subnets subnetsByZone :
  forallb knownSubnetType Subnets = false ->
  exists s, s ∈ Subnets /\ knownSubnetType s = false
    /\ forall w, subnetsByZone_loop lbSpec_Type Subnets subnetsByZone w
       = (Fail (Errorf "subnet %q had unknown type %q"
                  [ClusterSubnetSpec_Name s; ClusterSubnetSpec_Type s]), w).
Proof.
  revert subnetsByZone. induction Subnets as [|s rest IH]; intros m Hall; simpl.
  - discriminate.
  - simpl in Hall.
    destruct (knownSubnetType s) eqn:Hs; simpl in Hall.
    + assert (Hstep : forall m', exists s0, s0 ∈ s :: rest /\ knownSubnetType s0 = false
        /\ forall w, subnetsByZone_loop lbSpec_Type rest m' w
           = (Fail (Errorf "subnet %q had unknown type %q"
                      [ClusterSubnetSpec_Name s0; ClusterSubnetSpec_Type s0]), w)).
      { intros m'. destruct (IH m' Hall) as (s0 & Hin & Hk & Hrun).
        exists s0. split; [now right | auto]. }
      unfold knownSubnetType in Hs.
      destruct (String.eqb (ClusterSubnetSpec_Type s) SubnetTypePublic
                || String.eqb (ClusterSubnetSpec_Type s) SubnetTypeUtility) eqn:Hpub.
      * destruct (String.eqb lbSpec_Type LoadBalancerTypePublic); simpl; apply Hstep.
      * simpl in Hs. rewrite Hs.
        destruct (String.eqb lbSpec_Type LoadBalancerTypeInternal); simpl; apply Hstep.
    + exists s. split; [left|]. split; [exact Hs|]. intros w.
      unfold knownSubnetType in Hs.
      apply orb_false_iff in Hs as [Hpub Hpriv]. now rewrite Hpub, Hpriv.
Qed.

(** The entry of a zone in the grouped map: the subnets of the zone, in the
    order of the list, after what the map had for the zone. *)
Lemma fold_addSubnet_lookup (subnets : list ClusterSubnetSpec)
    (m : gmap string (list ClusterSubnetSpec)) (zone : string) :
  fold_left addSubnet subnets m !! zone
  = match m !! zone, List.filter (inZone zone) subnets with
    | None, [] => None
    | o, l => Some (default [] o ++ l)
    end.
Proof.
  revert m. induction subnets as [|s rest IH]; intros m; simpl.
  - destruct (m !! zone); simpl; [now rewrite app_nil_r | reflexivity].
  - rewrite IH. unfold addSubnet.
    destruct (inZone zone s) eqn:Hz; unfold inZone in Hz.
    + apply String.eqb_eq in Hz. rewrite Hz, lookup_insert_eq. simpl.
      rewrite <- app_assoc. simpl. destruct (m !! zone); reflexivity.
    + apply String.eqb_neq in Hz. rewrite lookup_insert_ne by exact Hz. reflexivity.
Qed.

(** Every zone of the grouped map has at least one subnet, and has exactly
    the compatible subnets of the zone. *)
Lemma groupByZone_lookup lbSpec_Type Subnets zone subnets :
  groupByZone lbSpec_Type Subnets !! zone = Some subnets <->
  subnets <> []
  /\ subnets = List.filter (inZone zone) (List.filter (compatible lbSpec_Type) Subnets).
Proof.
  unfold groupByZone. rewrite fold_addSubnet_lookup, lookup_empty.
  destruct (List.filter (inZone zone) (List.filter (compatible lbSpec_Type) Subnets)) as [|x l].
  - split; [discriminate | intros [H1 H2]; congruence].
  - simpl. split; [intros [= <-]; split; [discriminate | reflexivity]|].
    intros [_ ->]. reflexivity.
Qed.

(** The second loop returns the links to the best subnet of each entry, in
    the order of the entries; it adds no task and never fails. *)
Lemma elbSubnets_loop_run b entries elbSubnets :
  exists log, forall w,
    elbSubnets_loop b entries elbSubnets w
    = (Return (elbSubnets ++ linksOf b entries), logged w log).
Proof.
  revert elbSubnets. induction entries as [|[zone subnets] rest IH]; intros acc.
  - exists []. intros w. simpl. now rewrite app_nil_r, logged_nil.
  - destruct (chooseBestSubnetForELB_run b zone subnets) as [log1 H1].
    destruct (IH (acc ++ [LinkToSubnet b (bestSubnet b subnets)])) as [log2 H2].
    exists (log1 ++ log2). intros w. simpl.
    erewrite bind_Return by apply H1.
    rewrite H2, logged_logged, <- app_assoc. reflexivity.
Qed.

(** ** The passes of [Build] *)

Section Build_passes.

Variable range_order :
  list (string * list ClusterSubnetSpec) -> list (string * list ClusterSubnetSpec).
Variable Duration_Seconds_int64 : Z -> Z.

Lemma Build_disabled b w :
  UseLoadBalancerForAPI b = false -> Build range_order Duration_Seconds_int64 b w = (Return tt, w).
Proof. intros H. unfold Build. now rewrite H. Qed.

Lemma Build_absent b w :
  ClusterSpec_LoadBalancer (Cluster_Spec b) = None -> Build range_order Duration_Seconds_int64 b w = (Return tt, w).
Proof.
  intros H. unfold Build. rewrite H.
  now destruct (UseLoadBalancerForAPI b).
Qed.

Lemma Build_unhandled_type b lbSpec w :
  UseLoadBalancerForAPI b = true ->
  ClusterSpec_LoadBalancer (Cluster_Spec b) = Some lbSpec ->
  validLoadBalancerType (LoadBalancerAccessSpec_Type lbSpec) = false ->
  Build range_order Duration_Seconds_int64 b w
  = (Fail (Errorf "unhandled LoadBalancer type %q" [LoadBalancerAccessSpec_Type lbSpec]), w).
Proof.
  intros Hen Hlb Hty. unfold Build. rewrite Hen, Hlb. simpl.
  unfold validLoadBalancerType in Hty. rewrite Hty.
  now erewrite bind_Fail by reflexivity.
Qed.

Lemma Build_loop_Fail b lbSpec e :
  UseLoadBalancerForAPI b = true ->
  ClusterSpec_LoadBalancer (Cluster_Spec b) = Some lbSpec ->
  validLoadBalancerType (LoadBalancerAccessSpec_Type lbSpec) = true ->
  (forall w, subnetsByZone_loop (LoadBalancerAccessSpec_Type lbSpec)
               (ClusterSpec_Subnets (Cluster_Spec b)) ∅ w = (Fail e, w)) ->
  forall w, Build range_order Duration_Seconds_int64 b w = (Fail e, w).
Proof.
  intros Hen Hlb Hty Hrun w.
  unfold Build. rewrite Hen, Hlb. simpl.
  unfold validLoadBalancerType in Hty. rewrite Hty.
  erewrite bind_Return by reflexivity.
  now erewrite bind_Fail by apply Hrun.
Qed.

Lemma Build_unknown_subnet_type b lbSpec :
  UseLoadBalancerForAPI b = true ->
  ClusterSpec_LoadBalancer (Cluster_Spec b) = Some lbSpec ->
  validLoadBalancerType (LoadBalancerAccessSpec_Type lbSpec) = true ->
  forallb knownSubnetType (ClusterSpec_Subnets (Cluster_Spec b)) = false ->
  exists s, s ∈ ClusterSpec_Subnets (Cluster_Spec b) /\ knownSubnetType s = false
    /\ forall w, Build range_order Duration_Seconds_int64 b w
       = (Fail (Errorf "subnet %q had unknown type %q"
                  [ClusterSubnetSpec_Name s; ClusterSubnetSpec_Type s]), w).
Proof.
  intros Hen Hlb Hty Hsub.
  destruct (subnetsByZone_loop_unknown (LoadBalancerAccessSpec_Type lbSpec)
              _ ∅ Hsub) as (s & Hin & Hk & Hrun).
  exists s. split; [exact Hin|]. split; [exact Hk|].
  now apply Build_loop_Fail with (lbSpec := lbSpec).
Qed.

(** A pass that meets no unknown type returns nil and adds the tasks of
    [builtTasks], for the best subnet of each zone of the grouped map. *)
Lemma Build_ok b lbSpec :
  UseLoadBalancerForAPI b = true ->
  ClusterSpec_LoadBalancer (Cluster_Spec b) = Some lbSpec ->
  validLoadBalancerType (LoadBalancerAccessSpec_Type lbSpec) = true ->
  forallb knownSubnetType (ClusterSpec_Subnets (Cluster_Spec b)) = true ->
  exists log, forall w,
    Build range_order Duration_Seconds_int64 b w
    = (Return tt,
       added (logged w log)
         (builtTasks b lbSpec
            (linksOf b (range_order (map_to_list
               (groupByZone (LoadBalancerAccessSpec_Type lbSpec)
                  (ClusterSpec_Subnets (Cluster_Spec b))))))
            (Duration_Seconds_int64 (idleTimeoutOf lbSpec)))).
Proof.
  intros Hen Hlb Hty Hsub.
  set (T := LoadBalancerAccessSpec_Type lbSpec) in *.
  set (entries := range_order (map_to_list
         (groupByZone T (ClusterSpec_Subnets (Cluster_Spec b))))).
  destruct (elbSubnets_loop_run b entries []) as [log Hloop].
  exists log. intros w.
  unfold Build. rewrite Hen, Hlb. simpl. fold T.
  unfold validLoadBalancerType in Hty. rewrite Hty.
  erewrite bind_Return by reflexivity.
  erewrite bind_Return by (apply subnetsByZone_loop_known; exact Hsub).
  fold (groupByZone T (ClusterSpec_Subnets (Cluster_Spec b))). fold entries.
  erewrite bind_Return by apply Hloop. simpl.
  fold (idleTimeoutOf lbSpec).
  unfold builtTasks, schemeOf. fold T.
  destruct (String.eqb T LoadBalancerTypeInternal) eqn:Hint.
  - repeat run_bind.
    unfold ret, mret, M_ret. rewrite !added_added. reflexivity.
  - simpl in Hty. rewrite Hty. repeat run_bind.
    unfold ret, mret, M_ret. rewrite !added_added. reflexivity.
Qed.

End Build_passes.

(** ** The master subnets and the score *)

Lemma elem_of_fold_insert (names : list string) (acc : gset string) (x : string) :
  x ∈ fold_left (fun migSubnets subnet => {[subnet]} ∪ migSubnets) names acc
  <-> x ∈ names \/ x ∈ acc.
Proof.
  revert acc. induction names as [|n names IH]; intros acc; simpl.
  - rewrite elem_of_nil. tauto.
  - rewrite IH, elem_of_union, elem_of_singleton, elem_of_cons. tauto.
Qed.

Lemma elem_of_migSubnets (b : KopsModelContext) (name : string) :
  name ∈ migSubnets b <-> inMasterSubnets b name.
Proof.
  unfold migSubnets, inMasterSubnets.
  assert (H : forall igs (acc : gset string),
    name ∈ fold_left
      (fun migSubnets ig =>
         fold_left (fun migSubnets subnet => {[subnet]} ∪ migSubnets)
                   (InstanceGroup_Subnets ig) migSubnets) igs acc
    <-> (exists ig, ig ∈ igs /\ name ∈ InstanceGroup_Subnets ig) \/ name ∈ acc).
  { induction igs as [|ig igs IH]; intros acc; simpl.
    - split; [auto|]. intros [(ig & Hin & _)|H]; [|exact H]. inversion Hin.
    - rewrite IH, elem_of_fold_insert. split.
      + intros [(ig' & Hin & Hn)|[Hn|Hacc]]; [left|left|right; exact Hacc].
        * exists ig'. split; [now right | exact Hn].
        * exists ig. split; [left | exact Hn].
      + intros [(ig' & Hin & Hn)|Hacc]; [|auto].
        apply elem_of_cons in Hin as [->|Hin]; [auto|].
        left. exists ig'. auto. }
  rewrite H. split; [intros [H1|H1]; [exact H1 | now apply not_elem_of_empty in H1] | auto].
Qed.

(** The score counts the two preferences. *)
Lemma scoreOf_cases (b : KopsModelContext) (s : ClusterSubnetSpec) :
  scoreOf b s
  = (if bool_decide (ClusterSubnetSpec_Name s ∈ migSubnets b) then 1 else 0)
    + (if String.eqb (ClusterSubnetSpec_Type s) SubnetTypeUtility then 1 else 0).
Proof.
  unfold scoreOf, scoreSubnet.
  destruct (bool_decide (ClusterSubnetSpec_Name s ∈ migSubnets b));
    destruct (String.eqb (ClusterSubnetSpec_Type s) SubnetTypeUtility); reflexivity.
Qed.

(** A best subnet has the highest score. *)
Lemma isBest_score b subnets s x :
  isBest b subnets s -> x ∈ subnets -> scoreOf b x <= scoreOf b s.
Proof.
  intros [_ Hleast] Hx. specialize (Hleast x Hx).
  apply Less_false in Hleast. unfold scoreOf. lia.
Qed.

(** Among the subnets of the highest score no name is below its name. *)
Lemma isBest_name b subnets s x :
  isBest b subnets s -> x ∈ subnets -> scoreOf b x = scoreOf b s ->
  String.ltb (ClusterSubnetSpec_Name x) (ClusterSubnetSpec_Name s) = false.
Proof.
  intros [_ Hleast] Hx Hsc. specialize (Hleast x Hx).
  apply Less_false in Hleast. unfold scoreOf in Hsc.
  destruct Hleast as [Hlt|[_ Hn]]; [lia | exact Hn].
Qed.

(** The name identifies the subnet, among the subnets of a slice. *)
Lemma NoDup_names_identify (subnets : list ClusterSubnetSpec) :
  NoDup (map ClusterSubnetSpec_Name subnets) -> namesIdentify subnets.
Proof.
  unfold namesIdentify.
  induction subnets as [|z l IH]; simpl; intros Hnd x y Hx Hy Hn.
  - inversion Hx.
  - apply NoDup_cons in Hnd as [Hz Hl].
    apply elem_of_cons in Hx as [->|Hx]; apply elem_of_cons in Hy as [->|Hy].
    + reflexivity.
    + exfalso. apply Hz. rewrite Hn. apply list_elem_of_In, in_map.
      now apply list_elem_of_In.
    + exfalso. apply Hz. rewrite <- Hn. apply list_elem_of_In, in_map.
      now apply list_elem_of_In.
    + auto.
Qed.

(** When the name identifies the subnet, the best subnet is unique, whatever
    the order of the slice. *)
Lemma isBest_unique b subnets subnets' s s' :
  namesIdentify subnets -> subnets' ≡ₚ subnets ->
  isBest b subnets s -> isBest b subnets' s' -> s = s'.
Proof.
  intros Hid Hp [Hs Hleast] [Hs' Hleast'].
  rewrite Hp in Hs'.
  assert (Hs2 : s ∈ subnets') by now rewrite Hp.
  destruct (Less_false_antisym _ _ (Hleast s' Hs') (Hleast' s Hs2)) as [_ Hn].
  rewrite !subnet_scoreSubnet in Hn.
  symmetry. now apply Hid.
Qed.

(** ** The choice of a subnet *)

(** C4. A subnet that is in the subnets of the master instance groups and is
    of type utility scores 2, a subnet that meets exactly one of the two
    conditions scores 1, and a subnet that meets neither scores 0; the subnet
    [chooseBestSubnetForELB] returns on a slice that is not empty is one of
    the slice and no subnet of the slice has a higher score. *)
Theorem scoring_monotone (b : KopsModelContext) :
  (forall s,
     (inMasterSubnets b (ClusterSubnetSpec_Name s)
      /\ ClusterSubnetSpec_Type s = SubnetTypeUtility -> scoreOf b s = 2)
     /\ ((inMasterSubnets b (ClusterSubnetSpec_Name s)
          /\ ClusterSubnetSpec_Type s <> SubnetTypeUtility)
         \/ (~ inMasterSubnets b (ClusterSubnetSpec_Name s)
             /\ ClusterSubnetSpec_Type s = SubnetTypeUtility) -> scoreOf b s = 1)
     /\ (~ inMasterSubnets b (ClusterSubnetSpec_Name s)
         /\ ClusterSubnetSpec_Type s <> SubnetTypeUtility -> scoreOf b s = 0))
  /\ (forall zone x0 rest w, exists r w',
        chooseBestSubnetForELB b zone (x0 :: rest) w = (Return (Some r), w')
        /\ r ∈ x0 :: rest
        /\ forall x, x ∈ x0 :: rest -> scoreOf b x <= scoreOf b r).
Proof.
  split.
  - intros s. rewrite scoreOf_cases.
    destruct (String.eqb_spec (ClusterSubnetSpec_Type s) SubnetTypeUtility) as [Hu|Hu];
      case_bool_decide as Hm; rewrite elem_of_migSubnets in Hm;
      repeat split; intros; try reflexivity; tauto.
  - intros zone x0 rest w.
    destruct (chooseBestSubnetForELB_run b zone (x0 :: rest)) as [log Hrun].
    destruct (bestSubnet_isBest b (x0 :: rest)) as (r & Hr & Hbest); [discriminate|].
    exists r, (logged w log). rewrite Hrun, Hr. split; [reflexivity|].
    split; [apply Hbest|]. intros x Hx. eapply isBest_score; eauto.
Qed.

(** C2. On a slice of two or more subnets in which the name identifies the
    subnet, [chooseBestSubnetForELB] returns a subnet of the highest score
    whose name is below the name of every other subnet of that score, and it
    returns the same subnet on every rearrangement of the slice. *)
Theorem tie_break_lexical (b : KopsModelContext) (zone : string)
    (subnets : list ClusterSubnetSpec) :
  (2 <= length subnets)%nat ->
  namesIdentify subnets ->
  exists r,
    r ∈ subnets
    /\ (forall x, x ∈ subnets -> scoreOf b x <= scoreOf b r)
    /\ (forall x, x ∈ subnets -> scoreOf b x = scoreOf b r -> x <> r ->
          String.ltb (ClusterSubnetSpec_Name r) (ClusterSubnetSpec_Name x) = true)
    /\ (forall subnets' w, subnets' ≡ₚ subnets ->
          exists w', chooseBestSubnetForELB b zone subnets' w = (Return (Some r), w')).
Proof.
  intros Hlen Hid.
  assert (Hne : subnets <> []) by (intros ->; simpl in Hlen; lia).
  destruct (bestSubnet_isBest b subnets Hne) as (r & Hr & Hbest).
  exists r. split; [apply Hbest|]. split; [|split].
  - intros x Hx. eapply isBest_score; eauto.
  - intros x Hx Hsc Hxr.
    destruct (String.ltb (ClusterSubnetSpec_Name r) (ClusterSubnetSpec_Name x)) eqn:Hlt;
      [reflexivity|].
    exfalso. apply Hxr. apply Hid; [exact Hx | apply Hbest |].
    symmetry. apply string_ltb_total; [exact Hlt|].
    eapply isBest_name; eauto.
  - intros subnets' w Hp.
    destruct (chooseBestSubnetForELB_run b zone subnets') as [log Hrun].
    assert (Hne' : subnets' <> []).
    { intros ->. apply Permutation_nil in Hp. congruence. }
    destruct (bestSubnet_isBest b subnets' Hne') as (r' & Hr' & Hbest').
    exists (logged w log). rewrite Hrun, Hr'.
    now rewrite (isBest_unique b subnets subnets' r r' Hid Hp Hbest Hbest').
Qed.

(** The fast path: on a slice of one subnet [chooseBestSubnetForELB] returns
    that subnet, scores nothing and logs nothing. *)
Theorem single_subnet_fast_path (b : KopsModelContext) (zone : string)
    (s : ClusterSubnetSpec) (w : World) :
  chooseBestSubnetForELB b zone [s] w = (Return (Some s), w).
Proof. reflexivity. Qed.

(** ** The tasks of a pass *)

Lemma loadBalancers_app ts1 ts2 :
  loadBalancers (ts1 ++ ts2) = loadBalancers ts1 ++ loadBalancers ts2.
Proof. unfold loadBalancers. apply omap_app. Qed.

Lemma loadBalancers_rules {A} (f : A -> SecurityGroupRule) (l : list A) :
  loadBalancers (map (fun x => TaskSecurityGroupRule (f x)) l) = [].
Proof. induction l as [|x l IH]; simpl; [reflexivity | exact IH]. Qed.

Lemma loadBalancers_attachments {A} (f : A -> LoadBalancerAttachment) (l : list A) :
  loadBalancers (map (fun x => TaskLoadBalancerAttachment (f x)) l) = [].
Proof. induction l as [|x l IH]; simpl; [reflexivity | exact IH]. Qed.

(** A pass adds one load balancer. *)
Lemma loadBalancers_builtTasks b lbSpec elbSubnets idleTimeoutSeconds :
  loadBalancers (builtTasks b lbSpec elbSubnets idleTimeoutSeconds)
  = [LoadBalancer_set_Scheme (apiLoadBalancer b elbSubnets idleTimeoutSeconds)
       (schemeOf (LoadBalancerAccessSpec_Type lbSpec))].
Proof.
  unfold builtTasks.
  change (loadBalancers (?t :: ?u :: ?v :: ?rest))
    with (loadBalancers [t; u; v] ++ loadBalancers rest).
  rewrite loadBalancers_app, (loadBalancers_rules (ingressRule b)).
  change (loadBalancers (?t :: ?rest)) with (loadBalancers [t] ++ loadBalancers rest).
  now rewrite (loadBalancers_attachments (attachment b)).
Qed.

Lemma filter_ingress_rules b (cidrs : list string) :
  List.filter isIngressRule (map (fun cidr => TaskSecurityGroupRule (ingressRule b cidr)) cidrs)
  = map (fun cidr => TaskSecurityGroupRule (ingressRule b cidr)) cidrs.
Proof. induction cidrs as [|c l IH]; simpl; [reflexivity | now rewrite IH]. Qed.

Lemma filter_ingress_attachments {A} (f : A -> LoadBalancerAttachment) (l : list A) :
  List.filter isIngressRule (map (fun x => TaskLoadBalancerAttachment (f x)) l) = [].
Proof. induction l as [|x l IH]; simpl; [reflexivity | exact IH]. Qed.

(** The ingress rules of a pass are the rules of the CIDRs, in their order. *)
Lemma filter_ingress_builtTasks b lbSpec elbSubnets idleTimeoutSeconds :
  List.filter isIngressRule (builtTasks b lbSpec elbSubnets idleTimeoutSeconds)
  = map (fun cidr => TaskSecurityGroupRule (ingressRule b cidr))
      (ClusterSpec_KubernetesAPIAccess (Cluster_Spec b)).
Proof.
  unfold builtTasks. simpl.
  rewrite List.filter_app, filter_ingress_rules. simpl.
  now rewrite (filter_ingress_attachments (attachment b)), app_nil_r.
Qed.

Lemma string_app_inj (p s1 s2 : string) : p +:+ s1 = p +:+ s2 -> s1 = s2.
Proof.
  induction p as [|c p IH]; simpl; intros H; [exact H|].
  injection H as H. auto.
Qed.

Lemma Tasks_added w ts : Tasks (added w ts) = Tasks w ++ ts.
Proof. reflexivity. Qed.

Lemma Tasks_logged w log : Tasks (logged w log) = Tasks w.
Proof. reflexivity. Qed.

Lemma validLoadBalancerType_false (lbSpec_Type : string) :
  validLoadBalancerType lbSpec_Type = false <->
  lbSpec_Type <> LoadBalancerTypeInternal /\ lbSpec_Type <> LoadBalancerTypePublic.
Proof.
  unfold validLoadBalancerType.
  rewrite orb_false_iff, !String.eqb_neq. reflexivity.
Qed.

Lemma knownSubnetType_false (s : ClusterSubnetSpec) :
  knownSubnetType s = false <->
  ClusterSubnetSpec_Type s <> SubnetTypePublic
  /\ ClusterSubnetSpec_Type s <> SubnetTypeUtility
  /\ ClusterSubnetSpec_Type s <> SubnetTypePrivate.
Proof.
  unfold knownSubnetType.
  rewrite !orb_false_iff, !String.eqb_neq. tauto.
Qed.

Lemma forallb_knownSubnetType_false (subnets : list ClusterSubnetSpec) :
  forallb knownSubnetType subnets = false <->
  exists s, s ∈ subnets /\ knownSubnetType s = false.
Proof.
  induction subnets as [|x l IH]; simpl.
  - split; [discriminate | intros (s & Hin & _); inversion Hin].
  - rewrite andb_false_iff, IH. split.
    + intros [Hx|(s & Hin & Hs)]; [exists x; split; [left | exact Hx]|].
      exists s. split; [now right | exact Hs].
    + intros (s & Hin & Hs). apply elem_of_cons in Hin as [->|Hin]; [now left|].
      right. exists s. auto.
Qed.

(** ** The properties of [Build] *)

Section Build_properties.

Variable range_order :
  list (string * list ClusterSubnetSpec) -> list (string * list ClusterSubnetSpec).
Variable Duration_Seconds_int64 : Z -> Z.

(** The ways a pass ends: no task and nil; no task and one of the two
    errors of the type checks; or nil and the tasks of [builtTasks]. *)
Lemma Build_cases b :
  (forall w, Build range_order Duration_Seconds_int64 b w = (Return tt, w))
  \/ (exists format args,
        (format = "unhandled LoadBalancer type %q"
         \/ format = "subnet %q had unknown type %q")
        /\ forall w, Build range_order Duration_Seconds_int64 b w
                     = (Fail (Errorf format args), w))
  \/ (exists lbSpec log elbSubnets,
        ClusterSpec_LoadBalancer (Cluster_Spec b) = Some lbSpec
        /\ validLoadBalancerType (LoadBalancerAccessSpec_Type lbSpec) = true
        /\ forall w, Build range_order Duration_Seconds_int64 b w
             = (Return tt,
                added (logged w log)
                  (builtTasks b lbSpec elbSubnets
                     (Duration_Seconds_int64 (idleTimeoutOf lbSpec))))).
Proof.
  destruct (UseLoadBalancerForAPI b) eqn:Hen;
    [| left; intros w; now apply Build_disabled].
  destruct (ClusterSpec_LoadBalancer (Cluster_Spec b)) as [lbSpec|] eqn:Hlb;
    [| left; intros w; now apply Build_absent].
  destruct (validLoadBalancerType (LoadBalancerAccessSpec_Type lbSpec)) eqn:Hty.
  - destruct (forallb knownSubnetType (ClusterSpec_Subnets (Cluster_Spec b))) eqn:Hsub.
    + right; right.
      destruct (Build_ok range_order Duration_Seconds_int64 b lbSpec Hen Hlb Hty Hsub)
        as [log Hrun].
      exists lbSpec, log. eexists. split; [reflexivity|]. split; [exact Hty|]. exact Hrun.
    + right; left.
      destruct (Build_unknown_subnet_type range_order Duration_Seconds_int64
                  b lbSpec Hen Hlb Hty Hsub) as (s & _ & _ & Hrun).
      do 2 eexists. split; [right; reflexivity | exact Hrun].
  - right; left. do 2 eexists. split; [left; reflexivity|].
    intros w.
    exact (Build_unhandled_type range_order Duration_Seconds_int64 b lbSpec w Hen Hlb Hty).
Qed.

(** C5. When the load balancer is not used for the API, or the cluster has
    no load-balancer configuration, [Build] returns nil and leaves the
    collection as it was. *)
Theorem no_op_guard b w :
  UseLoadBalancerForAPI b = false
  \/ ClusterSpec_LoadBalancer (Cluster_Spec b) = None ->
  Build range_order Duration_Seconds_int64 b w = (Return tt, w).
Proof. intros [H|H]; [now apply Build_disabled | now apply Build_absent]. Qed.

(** C10. In a pass that gets past the guard and the type checks [Build]
    adds one load balancer, and its scheme is "internal" exactly when the
    requested type is internal and nil exactly when the type is public.  No
    load balancer of any pass has another scheme, and [Build] never returns
    the error of the default branch of the second switch. *)
Theorem scheme_of_type b w :
  (exists ts,
     Tasks (snd (Build range_order Duration_Seconds_int64 b w)) = Tasks w ++ ts
     /\ (forall elb, elb ∈ loadBalancers ts ->
          exists lbSpec,
            ClusterSpec_LoadBalancer (Cluster_Spec b) = Some lbSpec
            /\ (LoadBalancer_Scheme elb = Some "internal"
                <-> LoadBalancerAccessSpec_Type lbSpec = LoadBalancerTypeInternal)
            /\ (LoadBalancerAccessSpec_Type lbSpec = LoadBalancerTypePublic
                -> LoadBalancer_Scheme elb = None))
     /\ (forall lbSpec,
          UseLoadBalancerForAPI b = true ->
          ClusterSpec_LoadBalancer (Cluster_Spec b) = Some lbSpec ->
          validLoadBalancerType (LoadBalancerAccessSpec_Type lbSpec) = true ->
          forallb knownSubnetType (ClusterSpec_Subnets (Cluster_Spec b)) = true ->
          fst (Build range_order Duration_Seconds_int64 b w) = Return tt
          /\ exists elb rest,
               ts = TaskLoadBalancer elb :: rest
               /\ loadBalancers rest = []
               /\ (LoadBalancer_Scheme elb = Some "internal"
                   <-> LoadBalancerAccessSpec_Type lbSpec = LoadBalancerTypeInternal)
               /\ (LoadBalancer_Scheme elb = None
                   <-> LoadBalancerAccessSpec_Type lbSpec = LoadBalancerTypePublic)))
  /\ forall args,
       fst (Build range_order Duration_Seconds_int64 b w)
       <> Fail (Errorf "unknown elb Type: %q" args).
Proof.
  destruct (Build_cases b)
    as [Hrun|[(format & args & Hformat & Hrun)|(lbSpec & log & links & Hlb & Hty & Hrun)]].
  - rewrite Hrun; simpl. split; [|discriminate]. exists []. rewrite app_nil_r.
    split; [reflexivity|]. split; [intros elb Hin; inversion Hin|].
    intros lbSpec Hen Hlb Hty Hsub.
    destruct (Build_ok range_order Duration_Seconds_int64 b lbSpec Hen Hlb Hty Hsub)
      as [log Hok].
    pose proof (Hrun emptyWorld) as Hw. rewrite (Hok emptyWorld) in Hw.
    apply (f_equal (fun r => Tasks (snd r))) in Hw.
    cbn in Hw. unfold builtTasks in Hw. discriminate.
  - rewrite Hrun; simpl. split.
    + exists []. rewrite app_nil_r. split; [reflexivity|].
      split; [intros elb Hin; inversion Hin|].
      intros lbSpec Hen Hlb Hty Hsub.
      destruct (Build_ok range_order Duration_Seconds_int64 b lbSpec Hen Hlb Hty Hsub)
        as [log Hok].
      pose proof (Hrun w) as Hw. rewrite (Hok w) in Hw. discriminate.
    + intros args' [= H _]. destruct Hformat; subst; discriminate.
  - rewrite Hrun. cbn [fst snd]. split; [|discriminate].
    exists (builtTasks b lbSpec links (Duration_Seconds_int64 (idleTimeoutOf lbSpec))).
    split; [reflexivity|]. split.
    + intros elb Hin. rewrite loadBalancers_builtTasks in Hin.
      apply list_elem_of_singleton in Hin as ->. exists lbSpec. split; [exact Hlb|].
      simpl. unfold schemeOf. split.
      * destruct (String.eqb_spec (LoadBalancerAccessSpec_Type lbSpec)
                    LoadBalancerTypeInternal); split; congruence.
      * intros ->. reflexivity.
    + intros lbSpec' Hen Hlb' _ _. split; [reflexivity|].
      assert (lbSpec' = lbSpec) as -> by congruence.
      pose proof (loadBalancers_builtTasks b lbSpec links
                    (Duration_Seconds_int64 (idleTimeoutOf lbSpec))) as Hlbs.
      unfold builtTasks in Hlbs |- *.
      change (loadBalancers (TaskLoadBalancer ?e :: ?r)) with (e :: loadBalancers r) in Hlbs.
      injection Hlbs as Hrest.
      do 2 eexists. split; [reflexivity|]. split; [exact Hrest|].
      simpl. unfold schemeOf.
      unfold validLoadBalancerType in Hty. apply orb_true_iff in Hty.
      destruct (String.eqb_spec (LoadBalancerAccessSpec_Type lbSpec)
                  LoadBalancerTypeInternal) as [Hint|Hint].
      * split; [tauto|]. split; [discriminate|].
        intros Hpub. rewrite Hpub in Hint. discriminate.
      * split; [split; [discriminate | tauto]|]. split; [|reflexivity].
        intros _. destruct Hty as [Hty|Hty]; [discriminate|].
        now apply String.eqb_eq in Hty.
Qed.

(** C6, as the code has it.  In a pass that gets past the guard (the load
    balancer is used for the API and the cluster has a load-balancer
    configuration), a load-balancer type that is neither internal nor public,
    or a subnet whose type is none of public, utility and private, makes
    [Build] return an error that names the offending value, and the
    collection is left as it was. *)
Theorem type_rejection b lbSpec w :
  UseLoadBalancerForAPI b = true ->
  ClusterSpec_LoadBalancer (Cluster_Spec b) = Some lbSpec ->
  (LoadBalancerAccessSpec_Type lbSpec <> LoadBalancerTypeInternal
   /\ LoadBalancerAccessSpec_Type lbSpec <> LoadBalancerTypePublic)
  \/ (exists s, s ∈ ClusterSpec_Subnets (Cluster_Spec b)
        /\ ClusterSubnetSpec_Type s <> SubnetTypePublic
        /\ ClusterSubnetSpec_Type s <> SubnetTypeUtility
        /\ ClusterSubnetSpec_Type s <> SubnetTypePrivate) ->
  exists e,
    Build range_order Duration_Seconds_int64 b w = (Fail e, w)
    /\ ((LoadBalancerAccessSpec_Type lbSpec <> LoadBalancerTypeInternal
         /\ LoadBalancerAccessSpec_Type lbSpec <> LoadBalancerTypePublic
         /\ e = Errorf "unhandled LoadBalancer type %q"
                 [LoadBalancerAccessSpec_Type lbSpec])
        \/ (exists s, s ∈ ClusterSpec_Subnets (Cluster_Spec b)
              /\ ClusterSubnetSpec_Type s <> SubnetTypePublic
              /\ ClusterSubnetSpec_Type s <> SubnetTypeUtility
              /\ ClusterSubnetSpec_Type s <> SubnetTypePrivate
              /\ e = Errorf "subnet %q had unknown type %q"
                      [ClusterSubnetSpec_Name s; ClusterSubnetSpec_Type s])).
Proof.
  intros Hen Hlb Hbad.
  destruct (validLoadBalancerType (LoadBalancerAccessSpec_Type lbSpec)) eqn:Hty.
  - destruct Hbad as [Hbad|(s & Hin & Hs)].
    { apply validLoadBalancerType_false in Hbad. congruence. }
    assert (Hsub : forallb knownSubnetType (ClusterSpec_Subnets (Cluster_Spec b)) = false).
    { apply forallb_knownSubnetType_false. exists s. split; [exact Hin|].
      now apply knownSubnetType_false. }
    destruct (Build_unknown_subnet_type range_order Duration_Seconds_int64
                b lbSpec Hen Hlb Hty Hsub) as (s' & Hin' & Hk' & Hrun).
    eexists. split; [apply Hrun|]. right. exists s'.
    apply knownSubnetType_false in Hk'. tauto.
  - eexists.
    split; [exact (Build_unhandled_type range_order Duration_Seconds_int64
                     b lbSpec w Hen Hlb Hty)|].
    left.
    apply validLoadBalancerType_false in Hty. tauto.
Qed.

(** C7, as the code has it.  In a pass that gets past the guard and the
    type checks, the ingress rules [Build] adds are one rule for each CIDR of
    the API-access list, in the order of the list; the rule of a CIDR is named
    after the CIDR alone, lets TCP port 443 in from the CIDR to the security
    group of the load balancer, and two CIDRs with the same rule name are
    the same CIDR.  For the list of 10.0.0.0/8 and 192.168.1.0/24, in either
    order, the rules are two and their names are the same two names. *)
Theorem ingress_rules b lbSpec w :
  UseLoadBalancerForAPI b = true ->
  ClusterSpec_LoadBalancer (Cluster_Spec b) = Some lbSpec ->
  validLoadBalancerType (LoadBalancerAccessSpec_Type lbSpec) = true ->
  forallb knownSubnetType (ClusterSpec_Subnets (Cluster_Spec b)) = true ->
  exists w' ts,
    Build range_order Duration_Seconds_int64 b w = (Return tt, w')
    /\ Tasks w' = Tasks w ++ ts
    /\ List.filter isIngressRule ts
       = map (fun cidr => TaskSecurityGroupRule (ingressRule b cidr))
           (ClusterSpec_KubernetesAPIAccess (Cluster_Spec b))
    /\ (forall cidr,
          SecurityGroupRule_Name (ingressRule b cidr) = Some ("https-api-elb-" +:+ cidr)
          /\ SecurityGroupRule_CIDR (ingressRule b cidr) = Some cidr
          /\ SecurityGroupRule_Protocol (ingressRule b cidr) = Some "tcp"
          /\ SecurityGroupRule_FromPort (ingressRule b cidr) = Some 443
          /\ SecurityGroupRule_ToPort (ingressRule b cidr) = Some 443
          /\ SecurityGroupRule_SecurityGroup (ingressRule b cidr)
             = Some (LinkToELBSecurityGroup b "api"))
    /\ (forall b' cidr cidr',
          SecurityGroupRule_Name (ingressRule b cidr)
          = SecurityGroupRule_Name (ingressRule b' cidr') -> cidr = cidr')
    /\ (ClusterSpec_KubernetesAPIAccess (Cluster_Spec b) = ["10.0.0.0/8"; "192.168.1.0/24"]
        -> map taskName (List.filter isIngressRule ts)
           = [Some "https-api-elb-10.0.0.0/8"; Some "https-api-elb-192.168.1.0/24"])
    /\ (ClusterSpec_KubernetesAPIAccess (Cluster_Spec b) = ["192.168.1.0/24"; "10.0.0.0/8"]
        -> map taskName (List.filter isIngressRule ts)
           = [Some "https-api-elb-192.168.1.0/24"; Some "https-api-elb-10.0.0.0/8"]).
Proof.
  intros Hen Hlb Hty Hsub.
  destruct (Build_ok range_order Duration_Seconds_int64 b lbSpec Hen Hlb Hty Hsub)
    as [log Hrun].
  do 2 eexists. split; [apply Hrun|]. split; [reflexivity|].
  rewrite filter_ingress_builtTasks.
  split; [reflexivity|]. split; [intros cidr; repeat split|]. split.
  - intros b' cidr cidr' [= H]. exact H.
  - split; intros ->; reflexivity.
Qed.

(** The errors of [Build]: the error of the first switch, on a load-balancer
    type it does not handle, and the error of the first loop, on a subnet
    whose type it does not know. *)
Lemma Build_Fail_cases b w e w' :
  Build range_order Duration_Seconds_int64 b w = (Fail e, w') ->
  exists lbSpec,
    ClusterSpec_LoadBalancer (Cluster_Spec b) = Some lbSpec
    /\ ((validLoadBalancerType (LoadBalancerAccessSpec_Type lbSpec) = false
         /\ e = Errorf "unhandled LoadBalancer type %q"
                 [LoadBalancerAccessSpec_Type lbSpec])
        \/ (exists s, s ∈ ClusterSpec_Subnets (Cluster_Spec b)
              /\ knownSubnetType s = false
              /\ e = Errorf "subnet %q had unknown type %q"
                      [ClusterSubnetSpec_Name s; ClusterSubnetSpec_Type s])).
Proof.
  intros Hrun.
  destruct (UseLoadBalancerForAPI b) eqn:Hen.
  2: { rewrite Build_disabled in Hrun by exact Hen. discriminate. }
  destruct (ClusterSpec_LoadBalancer (Cluster_Spec b)) as [lbSpec|] eqn:Hlb.
  2: { rewrite Build_absent in Hrun by exact Hlb. discriminate. }
  exists lbSpec. split; [reflexivity|].
  destruct (validLoadBalancerType (LoadBalancerAccessSpec_Type lbSpec)) eqn:Hty.
  2: { rewrite (Build_unhandled_type _ _ b lbSpec w Hen Hlb Hty) in Hrun.
       left. split; [reflexivity|]. congruence. }
  destruct (forallb knownSubnetType (ClusterSpec_Subnets (Cluster_Spec b))) eqn:Hsub.
  - destruct (Build_ok range_order Duration_Seconds_int64 b lbSpec Hen Hlb Hty Hsub)
      as [log Hok].
    rewrite Hok in Hrun. discriminate.
  - destruct (Build_unknown_subnet_type range_order Duration_Seconds_int64
                b lbSpec Hen Hlb Hty Hsub) as (s & Hin & Hk & Hfail).
    rewrite Hfail in Hrun. right. exists s. split; [exact Hin|]. split; [exact Hk|].
    congruence.
Qed.

End Build_properties.

(** ** The subnets of the load balancer *)

Lemma bestSubnet_Some b subnets s :
  bestSubnet b subnets = Some s -> isBest b subnets s.
Proof.
  intros H. destruct subnets as [|x l]; [discriminate|].
  destruct (bestSubnet_isBest b (x :: l)) as (s' & Hs' & Hbest); [discriminate|].
  congruence.
Qed.

Lemma linksOf_chosenSubnets b (entries : list (string * list ClusterSubnetSpec)) :
  (forall entry, entry ∈ entries -> snd entry <> []) ->
  linksOf b entries = map (fun s => LinkToSubnet b (Some s)) (chosenSubnets b entries).
Proof.
  induction entries as [|[zone subnets] rest IH]; intros Hne; [reflexivity|].
  unfold linksOf, chosenSubnets in *. simpl.
  destruct (bestSubnet_isBest b subnets) as (s & Hs & _).
  { apply (Hne (zone, subnets)). left. }
  rewrite Hs. simpl. f_equal. apply IH. intros entry Hin. apply Hne. now right.
Qed.

Lemma elem_of_chosenSubnets b (entries : list (string * list ClusterSubnetSpec)) s :
  s ∈ chosenSubnets b entries ->
  exists zone subnets, (zone, subnets) ∈ entries /\ isBest b subnets s.
Proof.
  unfold chosenSubnets. rewrite list_elem_of_omap.
  intros ([zone subnets] & Hin & Hs). exists zone, subnets.
  split; [exact Hin | now apply bestSubnet_Some].
Qed.

Lemma elem_of_filter_bool {A} (f : A -> bool) (l : list A) (x : A) :
  x ∈ List.filter f l <-> x ∈ l /\ f x = true.
Proof. rewrite !list_elem_of_In. apply filter_In. Qed.

(** The first loop, when it returns, returns the grouped map. *)
Lemma subnetsByZone_loop_Return lbSpec_Type Subnets w subnetsByZone w' :
  subnetsByZone_loop lbSpec_Type Subnets ∅ w = (Return subnetsByZone, w') ->
  subnetsByZone = groupByZone lbSpec_Type Subnets.
Proof.
  intros Hrun.
  destruct (forallb knownSubnetType Subnets) eqn:Hsub.
  - rewrite subnetsByZone_loop_known in Hrun by exact Hsub.
    now injection Hrun as <- _.
  - destruct (subnetsByZone_loop_unknown lbSpec_Type Subnets ∅ Hsub) as (s & _ & _ & Hfail).
    rewrite Hfail in Hrun. discriminate.
Qed.

Section Build_range.

Variable range_order :
  list (string * list ClusterSubnetSpec) -> list (string * list ClusterSubnetSpec).
Variable Duration_Seconds_int64 : Z -> Z.

(** The [range] visits every entry of the map once. *)
Hypothesis range_order_Permutation : forall entries, range_order entries ≡ₚ entries.

(** The entries the second loop visits: the zones that have a compatible
    subnet, each with its compatible subnets. *)
Lemma elem_of_range_groupByZone lbSpec_Type Subnets zone subnets :
  (zone, subnets) ∈ range_order (map_to_list (groupByZone lbSpec_Type Subnets)) <->
  subnets <> []
  /\ subnets = List.filter (inZone zone) (List.filter (compatible lbSpec_Type) Subnets).
Proof.
  rewrite range_order_Permutation, elem_of_map_to_list.
  apply groupByZone_lookup.
Qed.

(** C9. [chooseBestSubnetForELB] never panics, whatever the slice: its two
    index accesses are in range; it returns nil on the empty slice only.  The
    entries of the map that the second loop of [Build] passes to it all have
    a slice that is not empty, on which it returns a subnet.  No step of
    [Build] in this file panics. *)
Theorem choose_never_panics b :
  (forall zone subnets w, exists r w',
     chooseBestSubnetForELB b zone subnets w = (Return r, w')
     /\ (r = None <-> subnets = []))
  /\ (forall lbSpec_Type Subnets w subnetsByZone w',
        subnetsByZone_loop lbSpec_Type Subnets ∅ w = (Return subnetsByZone, w') ->
        forall zone subnets,
          (zone, subnets) ∈ range_order (map_to_list subnetsByZone) ->
          subnets <> []
          /\ exists s, forall w0, exists w1,
               chooseBestSubnetForELB b zone subnets w0 = (Return (Some s), w1))
  /\ (forall w msg, fst (Build range_order Duration_Seconds_int64 b w) <> Panic msg).
Proof.
  split; [|split].
  - intros zone subnets w.
    destruct (chooseBestSubnetForELB_run b zone subnets) as [log Hrun].
    exists (bestSubnet b subnets), (logged w log). split; [apply Hrun|].
    destruct subnets as [|x l]; [split; reflexivity|].
    destruct (bestSubnet_isBest b (x :: l)) as (s & Hs & _); [discriminate|].
    rewrite Hs. split; discriminate.
  - intros lbSpec_Type Subnets w m w' Hloop zone subnets Hin.
    apply subnetsByZone_loop_Return in Hloop as ->.
    apply elem_of_range_groupByZone in Hin as [Hne _].
    split; [exact Hne|].
    destruct (bestSubnet_isBest b subnets Hne) as (s & Hs & _).
    exists s. intros w0.
    destruct (chooseBestSubnetForELB_run b zone subnets) as [log Hrun].
    exists (logged w0 log). now rewrite Hrun, Hs.
  - intros w msg.
    destruct (Build_cases range_order Duration_Seconds_int64 b)
      as [Hrun|[(format & args & _ & Hrun)|(lbSpec & log & links & _ & _ & Hrun)]];
      rewrite Hrun; discriminate.
Qed.

(** The load balancer is the only one of the tasks of a pass. *)
Lemma Build_ok_load_balancer b lbSpec :
  UseLoadBalancerForAPI b = true ->
  ClusterSpec_LoadBalancer (Cluster_Spec b) = Some lbSpec ->
  validLoadBalancerType (LoadBalancerAccessSpec_Type lbSpec) = true ->
  forallb knownSubnetType (ClusterSpec_Subnets (Cluster_Spec b)) = true ->
  forall w, exists w' elb rest,
    Build range_order Duration_Seconds_int64 b w = (Return tt, w')
    /\ Tasks w' = Tasks w ++ TaskLoadBalancer elb :: rest
    /\ loadBalancers rest = []
    /\ LoadBalancer_Subnets elb
       = linksOf b (range_order (map_to_list
           (groupByZone (LoadBalancerAccessSpec_Type lbSpec)
              (ClusterSpec_Subnets (Cluster_Spec b))))).
Proof.
  intros Hen Hlb Hty Hsub w.
  destruct (Build_ok range_order Duration_Seconds_int64 b lbSpec Hen Hlb Hty Hsub)
    as [log Hrun].
  pose proof (loadBalancers_builtTasks b lbSpec
    (linksOf b (range_order (map_to_list
       (groupByZone (LoadBalancerAccessSpec_Type lbSpec)
          (ClusterSpec_Subnets (Cluster_Spec b))))))
    (Duration_Seconds_int64 (idleTimeoutOf lbSpec))) as Hlbs.
  unfold builtTasks in Hlbs.
  change (loadBalancers (TaskLoadBalancer ?e :: ?r)) with (e :: loadBalancers r) in Hlbs.
  injection Hlbs as Hrest.
  do 3 eexists. split; [apply Hrun|]. split; [reflexivity|].
  split; [exact Hrest | reflexivity].
Qed.

(** C8. The only errors of [Build] are the errors of the two type checks:
    a zone without a compatible subnet is no error.  In a pass that gets past
    the guard and the type checks, [Build] returns nil and adds a load
    balancer whose subnets are links to compatible subnets of the cluster; a
    zone that has no compatible subnet has no subnet among them, and when no
    subnet at all is compatible the load balancer has no subnets. *)
Theorem no_compatible_subnet_no_error b :
  (forall w e w',
     Build range_order Duration_Seconds_int64 b w = (Fail e, w') ->
     exists lbSpec,
       ClusterSpec_LoadBalancer (Cluster_Spec b) = Some lbSpec
       /\ ((validLoadBalancerType (LoadBalancerAccessSpec_Type lbSpec) = false
            /\ e = Errorf "unhandled LoadBalancer type %q"
                    [LoadBalancerAccessSpec_Type lbSpec])
           \/ (exists s, s ∈ ClusterSpec_Subnets (Cluster_Spec b)
                 /\ knownSubnetType s = false
                 /\ e = Errorf "subnet %q had unknown type %q"
                         [ClusterSubnetSpec_Name s; ClusterSubnetSpec_Type s])))
  /\ (forall lbSpec,
        UseLoadBalancerForAPI b = true ->
        ClusterSpec_LoadBalancer (Cluster_Spec b) = Some lbSpec ->
        validLoadBalancerType (LoadBalancerAccessSpec_Type lbSpec) = true ->
        forallb knownSubnetType (ClusterSpec_Subnets (Cluster_Spec b)) = true ->
        exists chosen,
          (forall w, exists w' elb rest,
             Build range_order Duration_Seconds_int64 b w = (Return tt, w')
             /\ Tasks w' = Tasks w ++ TaskLoadBalancer elb :: rest
             /\ loadBalancers rest = []
             /\ LoadBalancer_Subnets elb = map (fun s => LinkToSubnet b (Some s)) chosen)
          /\ (forall s, s ∈ chosen ->
                s ∈ ClusterSpec_Subnets (Cluster_Spec b)
                /\ compatible (LoadBalancerAccessSpec_Type lbSpec) s = true)
          /\ (forall zone,
                (forall s, s ∈ ClusterSpec_Subnets (Cluster_Spec b) ->
                   ClusterSubnetSpec_Zone s = zone ->
                   compatible (LoadBalancerAccessSpec_Type lbSpec) s = false) ->
                forall s, s ∈ chosen -> ClusterSubnetSpec_Zone s <> zone)
          /\ ((forall s, s ∈ ClusterSpec_Subnets (Cluster_Spec b) ->
                  compatible (LoadBalancerAccessSpec_Type lbSpec) s = false) ->
              chosen = [])).
Proof.
  split; [intros w e w'; apply Build_Fail_cases|].
  intros lbSpec Hen Hlb Hty Hsub.
  set (T := LoadBalancerAccessSpec_Type lbSpec) in *.
  set (entries := range_order (map_to_list
         (groupByZone T (ClusterSpec_Subnets (Cluster_Spec b))))).
  assert (Hchosen : forall s, s ∈ chosenSubnets b entries ->
            s ∈ ClusterSpec_Subnets (Cluster_Spec b) /\ compatible T s = true).
  { intros s Hs.
    apply elem_of_chosenSubnets in Hs as (zone & subnets & Hin & [Hs _]).
    apply elem_of_range_groupByZone in Hin as [_ ->].
    apply elem_of_filter_bool in Hs as [Hs _].
    now apply elem_of_filter_bool in Hs. }
  exists (chosenSubnets b entries). split; [|split; [exact Hchosen|split]].
  - intros w.
    destruct (Build_ok_load_balancer b lbSpec Hen Hlb Hty Hsub w)
      as (w' & elb & rest & Hrun & Htasks & Hrest & Hlinks).
    exists w', elb, rest. repeat split; try assumption.
    rewrite Hlinks. apply linksOf_chosenSubnets.
    intros [zone subnets] Hin. now apply elem_of_range_groupByZone in Hin as [Hne _].
  - intros zone Hnone s Hs Hzone.
    destruct (Hchosen s Hs) as [Hin Hc]. rewrite (Hnone s Hin Hzone) in Hc. discriminate.
  - intros Hnone. destruct (chosenSubnets b entries) as [|s l] eqn:E; [reflexivity|].
    destruct (Hchosen s) as [Hin Hc]; [left|].
    rewrite (Hnone s Hin) in Hc. discriminate.
Qed.

(** C3. The cluster has the subnets A (zone us-east-1a, utility) and B
    (zone us-east-1a, public), a public load balancer, and one master
    instance group, on subnet B.  Then A scores 1 and B scores 1,
    [chooseBestSubnetForELB] returns A, and the load balancer [Build] adds
    has one subnet, the link to A. *)
Theorem end_to_end_scenario b lbSpec ig :
  UseLoadBalancerForAPI b = true ->
  ClusterSpec_LoadBalancer (Cluster_Spec b) = Some lbSpec ->
  LoadBalancerAccessSpec_Type lbSpec = LoadBalancerTypePublic ->
  ClusterSpec_Subnets (Cluster_Spec b) = [subnetA; subnetB]
  \/ ClusterSpec_Subnets (Cluster_Spec b) = [subnetB; subnetA] ->
  MasterInstanceGroups b = [ig] ->
  InstanceGroup_Subnets ig = ["B"] ->
  scoreOf b subnetA = 1
  /\ scoreOf b subnetB = 1
  /\ (forall w, exists w',
        chooseBestSubnetForELB b "us-east-1a" (ClusterSpec_Subnets (Cluster_Spec b)) w
        = (Return (Some subnetA), w'))
  /\ (forall w, exists w' elb rest,
        Build range_order Duration_Seconds_int64 b w = (Return tt, w')
        /\ Tasks w' = Tasks w ++ TaskLoadBalancer elb :: rest
        /\ loadBalancers rest = []
        /\ LoadBalancer_Subnets elb = [LinkToSubnet b (Some subnetA)]).
Proof.
  intros Hen Hlb HT Hsubnets Hmasters Hig.
  assert (Hmig : migSubnets b = {["B"]} ∪ ∅).
  { unfold migSubnets. rewrite Hmasters. simpl. now rewrite Hig. }
  assert (HA : scoreOf b subnetA = 1).
  { unfold scoreOf. rewrite Hmig. reflexivity. }
  assert (HB : scoreOf b subnetB = 1).
  { unfold scoreOf. rewrite Hmig. reflexivity. }
  assert (Hbest : bestSubnet b (ClusterSpec_Subnets (Cluster_Spec b)) = Some subnetA).
  { unfold bestSubnet. rewrite Hmig. destruct Hsubnets as [-> | ->]; reflexivity. }
  split; [exact HA|]. split; [exact HB|]. split.
  - intros w.
    destruct (chooseBestSubnetForELB_run b "us-east-1a"
                (ClusterSpec_Subnets (Cluster_Spec b))) as [log Hrun].
    exists (logged w log). now rewrite Hrun, Hbest.
  - intros w.
    assert (Hty : validLoadBalancerType (LoadBalancerAccessSpec_Type lbSpec) = true)
      by now rewrite HT.
    assert (Hsub : forallb knownSubnetType (ClusterSpec_Subnets (Cluster_Spec b)) = true)
      by (destruct Hsubnets as [-> | ->]; reflexivity).
    destruct (Build_ok_load_balancer b lbSpec Hen Hlb Hty Hsub w)
      as (w' & elb & rest & Hrun & Htasks & Hrest & Hlinks).
    exists w', elb, rest. repeat split; try assumption.
    rewrite Hlinks, HT.
    assert (Hentries :
      map_to_list (groupByZone LoadBalancerTypePublic (ClusterSpec_Subnets (Cluster_Spec b)))
      = [("us-east-1a", ClusterSpec_Subnets (Cluster_Spec b))]).
    { destruct Hsubnets as [-> | ->]; vm_compute; reflexivity. }
    rewrite Hentries.
    pose proof (range_order_Permutation
                  [("us-east-1a", ClusterSpec_Subnets (Cluster_Spec b))]) as Hp.
    apply Permutation_singleton_r in Hp. rewrite Hp.
    unfold linksOf. simpl. now rewrite Hbest.
Qed.

(** The zones of the chosen subnets are the zones of the entries. *)
Lemma chosenSubnets_zones b (entries : list (string * list ClusterSubnetSpec)) :
  (forall zone subnets, (zone, subnets) ∈ entries ->
     subnets <> [] /\ forall s, s ∈ subnets -> ClusterSubnetSpec_Zone s = zone) ->
  map ClusterSubnetSpec_Zone (chosenSubnets b entries) = map fst entries.
Proof.
  induction entries as [|[zone subnets] rest IH]; intros Hall; [reflexivity|].
  unfold chosenSubnets in *. simpl.
  destruct (Hall zone subnets) as [Hne Hzone]; [left|].
  destruct (bestSubnet_isBest b subnets Hne) as (s & Hs & [Hin _]).
  rewrite Hs. simpl. f_equal; [now apply Hzone|].
  apply IH. intros z l Hzl. apply Hall. now right.
Qed.

(** One subnet per zone: in a pass that gets past the guard and the type
    checks, the load balancer links one subnet for each zone that has a
    compatible subnet, and no two of the linked subnets are in the same
    zone. *)
Theorem one_subnet_per_zone b lbSpec :
  UseLoadBalancerForAPI b = true ->
  ClusterSpec_LoadBalancer (Cluster_Spec b) = Some lbSpec ->
  validLoadBalancerType (LoadBalancerAccessSpec_Type lbSpec) = true ->
  forallb knownSubnetType (ClusterSpec_Subnets (Cluster_Spec b)) = true ->
  exists chosen,
    (forall w, exists w' elb rest,
       Build range_order Duration_Seconds_int64 b w = (Return tt, w')
       /\ Tasks w' = Tasks w ++ TaskLoadBalancer elb :: rest
       /\ loadBalancers rest = []
       /\ LoadBalancer_Subnets elb = map (fun s => LinkToSubnet b (Some s)) chosen)
    /\ NoDup (map ClusterSubnetSpec_Zone chosen)
    /\ (forall zone,
          (exists s, s ∈ chosen /\ ClusterSubnetSpec_Zone s = zone)
          <-> (exists s, s ∈ ClusterSpec_Subnets (Cluster_Spec b)
                 /\ compatible (LoadBalancerAccessSpec_Type lbSpec) s = true
                 /\ ClusterSubnetSpec_Zone s = zone)).
Proof.
  intros Hen Hlb Hty Hsub.
  set (T := LoadBalancerAccessSpec_Type lbSpec) in *.
  set (Subnets := ClusterSpec_Subnets (Cluster_Spec b)) in *.
  set (entries := range_order (map_to_list (groupByZone T Subnets))).
  assert (Hentries : forall zone subnets, (zone, subnets) ∈ entries ->
            subnets <> [] /\ forall s, s ∈ subnets -> ClusterSubnetSpec_Zone s = zone).
  { intros zone subnets Hin.
    apply elem_of_range_groupByZone in Hin as [Hne Heq]. split; [exact Hne|].
    intros s Hs. rewrite Heq in Hs. apply elem_of_filter_bool in Hs as [_ Hz].
    now apply String.eqb_eq in Hz. }
  assert (Hzones : map ClusterSubnetSpec_Zone (chosenSubnets b entries) = map fst entries)
    by now apply chosenSubnets_zones.
  exists (chosenSubnets b entries). split; [|split].
  - intros w.
    destruct (Build_ok_load_balancer b lbSpec Hen Hlb Hty Hsub w)
      as (w' & elb & rest & Hrun & Htasks & Hrest & Hlinks).
    exists w', elb, rest. repeat split; try assumption.
    rewrite Hlinks. apply linksOf_chosenSubnets.
    intros [zone subnets] Hin. now apply Hentries in Hin as [Hne _].
  - rewrite Hzones. unfold entries. rewrite range_order_Permutation.
    apply NoDup_fst_map_to_list.
  - intros zone. split.
    + intros (s & Hs & Hz).
      apply elem_of_chosenSubnets in Hs as (z & subnets & Hin & [Hs _]).
      apply elem_of_range_groupByZone in Hin as [_ ->].
      apply elem_of_filter_bool in Hs as [Hs _].
      apply elem_of_filter_bool in Hs as [Hs Hc]. exists s. auto.
    + intros (s & Hs & Hc & Hz).
      set (subnets := List.filter (inZone zone) (List.filter (compatible T) Subnets)).
      assert (Hin : s ∈ subnets).
      { apply elem_of_filter_bool. split; [now apply elem_of_filter_bool|].
        now apply String.eqb_eq. }
      assert (Hne : subnets <> []) by (intros E; rewrite E in Hin; inversion Hin).
      assert (Hentry : (zone, subnets) ∈ entries)
        by now apply elem_of_range_groupByZone.
      assert (Hzone : zone ∈ map ClusterSubnetSpec_Zone (chosenSubnets b entries)).
      { rewrite Hzones. apply list_elem_of_In, in_map_iff.
        exists (zone, subnets). split; [reflexivity | now apply list_elem_of_In]. }
      apply list_elem_of_In, in_map_iff in Hzone as (s' & Hz' & Hs').
      exists s'. split; [now apply list_elem_of_In | exact Hz'].
Qed.

End Build_range.

(** ** Two passes on the same cluster *)

Lemma sameTask_refl (t : Task) : sameTask t t.
Proof. destruct t; simpl; [split|..]; reflexivity. Qed.

Lemma Forall2_sameTask_refl (ts : list Task) : Forall2 sameTask ts ts.
Proof. induction ts; constructor; [apply sameTask_refl | assumption]. Qed.

(** C1, as the code has it.  Two passes of [Build] on the same cluster, each
    with its own order of iteration over the map of zones, return the same
    result and add the same tasks in the same order, each task with the same
    fields, but for the subnets of the load balancer: the two lists hold the
    same links, each in the order of iteration of its pass. *)
Theorem build_same_up_to_subnet_order
    (range_order1 range_order2 :
       list (string * list ClusterSubnetSpec) -> list (string * list ClusterSubnetSpec))
    (Duration_Seconds_int64 : Z -> Z) (b : KopsModelContext) (w : World) :
  (forall entries, range_order1 entries ≡ₚ entries) ->
  (forall entries, range_order2 entries ≡ₚ entries) ->
  fst (Build range_order1 Duration_Seconds_int64 b w)
  = fst (Build range_order2 Duration_Seconds_int64 b w)
  /\ Forall2 sameTask
       (Tasks (snd (Build range_order1 Duration_Seconds_int64 b w)))
       (Tasks (snd (Build range_order2 Duration_Seconds_int64 b w))).
Proof.
  intros Hp1 Hp2.
  destruct (UseLoadBalancerForAPI b) eqn:Hen.
  2: { rewrite !Build_disabled by exact Hen. split; [reflexivity|].
       apply Forall2_sameTask_refl. }
  destruct (ClusterSpec_LoadBalancer (Cluster_Spec b)) as [lbSpec|] eqn:Hlb.
  2: { rewrite !Build_absent by exact Hlb. split; [reflexivity|].
       apply Forall2_sameTask_refl. }
  destruct (validLoadBalancerType (LoadBalancerAccessSpec_Type lbSpec)) eqn:Hty.
  2: { rewrite !(Build_unhandled_type _ _ b lbSpec w Hen Hlb Hty).
       split; [reflexivity|]. apply Forall2_sameTask_refl. }
  destruct (forallb knownSubnetType (ClusterSpec_Subnets (Cluster_Spec b))) eqn:Hsub.
  2: { destruct (subnetsByZone_loop_unknown (LoadBalancerAccessSpec_Type lbSpec)
                   _ ∅ Hsub) as (s & _ & _ & Hrun).
       rewrite !(Build_loop_Fail _ _ b lbSpec _ Hen Hlb Hty Hrun).
       split; [reflexivity|]. apply Forall2_sameTask_refl. }
  destruct (Build_ok range_order1 Duration_Seconds_int64 b lbSpec Hen Hlb Hty Hsub)
    as [log1 Hrun1].
  destruct (Build_ok range_order2 Duration_Seconds_int64 b lbSpec Hen Hlb Hty Hsub)
    as [log2 Hrun2].
  rewrite Hrun1, Hrun2. simpl. split; [reflexivity|].
  apply Forall2_app; [apply Forall2_sameTask_refl|].
  constructor; [|apply Forall2_sameTask_refl].
  simpl. split; [|reflexivity].
  unfold linksOf. apply Permutation_map. now rewrite Hp1, Hp2.
Qed.

(** ** The properties on the example clusters *)

Lemma inOrder_Permutation entries : inOrder entries ≡ₚ entries.
Proof. reflexivity. Qed.

Lemma inReverse_Permutation entries : inReverse entries ≡ₚ entries.
Proof. unfold inReverse. symmetry. apply Permutation_rev. Qed.

(** C1, as stated, fails: on the cluster with two zones the pass that visits
    the zones in one order and the pass that visits them in the reverse order
    add load balancers whose subnets come in different orders. *)
Lemma subnet_order_follows_iteration :
  (forall entries, inOrder entries ≡ₚ entries)
  /\ (forall entries, inReverse entries ≡ₚ entries)
  /\ map LoadBalancer_Subnets
       (loadBalancers (Tasks (snd (Build inOrder wholeSeconds twoZoneCluster emptyWorld))))
     = [[ {| Subnet_Name := Some "A" |}; {| Subnet_Name := Some "C" |} ]]
  /\ map LoadBalancer_Subnets
       (loadBalancers (Tasks (snd (Build inReverse wholeSeconds twoZoneCluster emptyWorld))))
     = [[ {| Subnet_Name := Some "C" |}; {| Subnet_Name := Some "A" |} ]]
  /\ Build inOrder wholeSeconds twoZoneCluster emptyWorld
     <> Build inReverse wholeSeconds twoZoneCluster emptyWorld.
Proof.
  split; [apply inOrder_Permutation|]. split; [apply inReverse_Permutation|].
  split; [vm_compute; reflexivity|]. split; [vm_compute; reflexivity|].
  intros H.
  apply (f_equal (fun r => map LoadBalancer_Subnets (loadBalancers (Tasks (snd r))))) in H.
  vm_compute in H. discriminate.
Qed.

Lemma build_same_up_to_subnet_order_witness :
  (forall entries, inOrder entries ≡ₚ entries)
  /\ (forall entries, inReverse entries ≡ₚ entries)
  /\ fst (Build inOrder wholeSeconds twoZoneCluster emptyWorld)
     = fst (Build inReverse wholeSeconds twoZoneCluster emptyWorld)
  /\ Forall2 sameTask
       (Tasks (snd (Build inOrder wholeSeconds twoZoneCluster emptyWorld)))
       (Tasks (snd (Build inReverse wholeSeconds twoZoneCluster emptyWorld))).
Proof.
  split; [apply inOrder_Permutation|]. split; [apply inReverse_Permutation|].
  apply (build_same_up_to_subnet_order inOrder inReverse wholeSeconds
           twoZoneCluster emptyWorld).
  - intros entries. reflexivity.
  - intros entries. unfold inReverse. symmetry. apply Permutation_rev.
Defined.

Lemma tie_break_lexical_witness :
  (2 <= length [subnetB; subnetA])%nat
  /\ namesIdentify [subnetB; subnetA]
  /\ exists r,
       r ∈ [subnetB; subnetA]
       /\ (forall x, x ∈ [subnetB; subnetA] -> scoreOf scenarioCluster x <= scoreOf scenarioCluster r)
       /\ (forall x, x ∈ [subnetB; subnetA] ->
             scoreOf scenarioCluster x = scoreOf scenarioCluster r -> x <> r ->
             String.ltb (ClusterSubnetSpec_Name r) (ClusterSubnetSpec_Name x) = true)
       /\ (forall subnets' w, subnets' ≡ₚ [subnetB; subnetA] ->
             exists w',
               chooseBestSubnetForELB scenarioCluster "us-east-1a" subnets' w
               = (Return (Some r), w')).
Proof.
  assert (Hlen : (2 <= length [subnetB; subnetA])%nat) by (simpl; lia).
  assert (Hid : namesIdentify [subnetB; subnetA]).
  { apply NoDup_names_identify. simpl. apply (bool_decide_unpack _). vm_compute. exact I. }
  split; [exact Hlen|]. split; [exact Hid|].
  exact (tie_break_lexical scenarioCluster "us-east-1a" [subnetB; subnetA] Hlen Hid).
Defined.

Lemma no_op_guard_witness :
  (UseLoadBalancerForAPI noLoadBalancerCluster = false
   \/ ClusterSpec_LoadBalancer (Cluster_Spec noLoadBalancerCluster) = None)
  /\ Build inOrder wholeSeconds noLoadBalancerCluster emptyWorld = (Return tt, emptyWorld).
Proof.
  assert (H : UseLoadBalancerForAPI noLoadBalancerCluster = false
              \/ ClusterSpec_LoadBalancer (Cluster_Spec noLoadBalancerCluster) = None)
    by (left; reflexivity).
  split; [exact H|].
  exact (no_op_guard inOrder wholeSeconds noLoadBalancerCluster emptyWorld H).
Defined.

Lemma type_rejection_witness :
  UseLoadBalancerForAPI unknownSubnetCluster = true
  /\ ClusterSpec_LoadBalancer (Cluster_Spec unknownSubnetCluster) = Some publicLoadBalancer
  /\ (exists s, s ∈ ClusterSpec_Subnets (Cluster_Spec unknownSubnetCluster)
        /\ ClusterSubnetSpec_Type s <> SubnetTypePublic
        /\ ClusterSubnetSpec_Type s <> SubnetTypeUtility
        /\ ClusterSubnetSpec_Type s <> SubnetTypePrivate)
  /\ exists e,
       Build inOrder wholeSeconds unknownSubnetCluster emptyWorld = (Fail e, emptyWorld)
       /\ ((LoadBalancerAccessSpec_Type publicLoadBalancer <> LoadBalancerTypeInternal
            /\ LoadBalancerAccessSpec_Type publicLoadBalancer <> LoadBalancerTypePublic
            /\ e = Errorf "unhandled LoadBalancer type %q"
                    [LoadBalancerAccessSpec_Type publicLoadBalancer])
           \/ (exists s, s ∈ ClusterSpec_Subnets (Cluster_Spec unknownSubnetCluster)
                 /\ ClusterSubnetSpec_Type s <> SubnetTypePublic
                 /\ ClusterSubnetSpec_Type s <> SubnetTypeUtility
                 /\ ClusterSubnetSpec_Type s <> SubnetTypePrivate
                 /\ e = Errorf "subnet %q had unknown type %q"
                         [ClusterSubnetSpec_Name s; ClusterSubnetSpec_Type s])).
Proof.
  assert (Hen : UseLoadBalancerForAPI unknownSubnetCluster = true) by reflexivity.
  assert (Hlb : ClusterSpec_LoadBalancer (Cluster_Spec unknownSubnetCluster)
                = Some publicLoadBalancer) by reflexivity.
  assert (Hbad : exists s, s ∈ ClusterSpec_Subnets (Cluster_Spec unknownSubnetCluster)
        /\ ClusterSubnetSpec_Type s <> SubnetTypePublic
        /\ ClusterSubnetSpec_Type s <> SubnetTypeUtility
        /\ ClusterSubnetSpec_Type s <> SubnetTypePrivate).
  { exists subnetX. split; [right; left|]. repeat split; discriminate. }
  split; [exact Hen|]. split; [exact Hlb|]. split; [exact Hbad|].
  exact (type_rejection inOrder wholeSeconds unknownSubnetCluster publicLoadBalancer
           emptyWorld Hen Hlb (or_intror Hbad)).
Defined.

Lemma ingress_rules_witness :
  UseLoadBalancerForAPI scenarioCluster = true
  /\ ClusterSpec_LoadBalancer (Cluster_Spec scenarioCluster) = Some publicLoadBalancer
  /\ validLoadBalancerType (LoadBalancerAccessSpec_Type publicLoadBalancer) = true
  /\ forallb knownSubnetType (ClusterSpec_Subnets (Cluster_Spec scenarioCluster)) = true
  /\ exists w' ts,
       Build inOrder wholeSeconds scenarioCluster emptyWorld = (Return tt, w')
       /\ Tasks w' = Tasks emptyWorld ++ ts
       /\ List.filter isIngressRule ts
          = map (fun cidr => TaskSecurityGroupRule (ingressRule scenarioCluster cidr))
              (ClusterSpec_KubernetesAPIAccess (Cluster_Spec scenarioCluster))
       /\ (forall cidr,
             SecurityGroupRule_Name (ingressRule scenarioCluster cidr)
             = Some ("https-api-elb-" +:+ cidr)
             /\ SecurityGroupRule_CIDR (ingressRule scenarioCluster cidr) = Some cidr
             /\ SecurityGroupRule_Protocol (ingressRule scenarioCluster cidr) = Some "tcp"
             /\ SecurityGroupRule_FromPort (ingressRule scenarioCluster cidr) = Some 443
             /\ SecurityGroupRule_ToPort (ingressRule scenarioCluster cidr) = Some 443
             /\ SecurityGroupRule_SecurityGroup (ingressRule scenarioCluster cidr)
                = Some (LinkToELBSecurityGroup scenarioCluster "api"))
       /\ (forall b' cidr cidr',
             SecurityGroupRule_Name (ingressRule scenarioCluster cidr)
             = SecurityGroupRule_Name (ingressRule b' cidr') -> cidr = cidr')
       /\ (ClusterSpec_KubernetesAPIAccess (Cluster_Spec scenarioCluster)
           = ["10.0.0.0/8"; "192.168.1.0/24"]
           -> map taskName (List.filter isIngressRule ts)
              = [Some "https-api-elb-10.0.0.0/8"; Some "https-api-elb-192.168.1.0/24"])
       /\ (ClusterSpec_KubernetesAPIAccess (Cluster_Spec scenarioCluster)
           = ["192.168.1.0/24"; "10.0.0.0/8"]
           -> map taskName (List.filter isIngressRule ts)
              = [Some "https-api-elb-192.168.1.0/24"; Some "https-api-elb-10.0.0.0/8"]).
Proof.
  assert (Hen : UseLoadBalancerForAPI scenarioCluster = true) by reflexivity.
  assert (Hlb : ClusterSpec_LoadBalancer (Cluster_Spec scenarioCluster)
                = Some publicLoadBalancer) by reflexivity.
  assert (Hty : validLoadBalancerType (LoadBalancerAccessSpec_Type publicLoadBalancer) = true)
    by reflexivity.
  assert (Hsub : forallb knownSubnetType (ClusterSpec_Subnets (Cluster_Spec scenarioCluster))
                 = true) by reflexivity.
  split; [exact Hen|]. split; [exact Hlb|]. split; [exact Hty|]. split; [exact Hsub|].
  exact (ingress_rules inOrder wholeSeconds scenarioCluster publicLoadBalancer emptyWorld
           Hen Hlb Hty Hsub).
Defined.

Lemma no_compatible_subnet_no_error_witness :
  (forall entries, inOrder entries ≡ₚ entries)
  /\ UseLoadBalancerForAPI internalCluster = true
  /\ validLoadBalancerType LoadBalancerTypeInternal = true
  /\ forallb knownSubnetType (ClusterSpec_Subnets (Cluster_Spec internalCluster)) = true
  /\ (forall s, s ∈ ClusterSpec_Subnets (Cluster_Spec internalCluster) ->
        compatible LoadBalancerTypeInternal s = false)
  /\ forall w, exists w' elb rest,
       Build inOrder wholeSeconds internalCluster w = (Return tt, w')
       /\ Tasks w' = Tasks w ++ TaskLoadBalancer elb :: rest
       /\ loadBalancers rest = []
       /\ LoadBalancer_Subnets elb = [].
Proof.
  assert (Hen : UseLoadBalancerForAPI internalCluster = true) by reflexivity.
  assert (Hty : validLoadBalancerType LoadBalancerTypeInternal = true) by reflexivity.
  assert (Hsub : forallb knownSubnetType (ClusterSpec_Subnets (Cluster_Spec internalCluster))
                 = true) by reflexivity.
  assert (Hnone : forall s, s ∈ ClusterSpec_Subnets (Cluster_Spec internalCluster) ->
                    compatible LoadBalancerTypeInternal s = false).
  { intros s Hs. simpl in Hs.
    repeat (apply elem_of_cons in Hs as [->|Hs]; [reflexivity|]). inversion Hs. }
  split; [intros entries; reflexivity|].
  split; [exact Hen|]. split; [exact Hty|]. split; [exact Hsub|]. split; [exact Hnone|].
  destruct (proj2 (no_compatible_subnet_no_error inOrder wholeSeconds
              (fun entries => Permutation_refl (inOrder entries)) internalCluster)
              _ Hen eq_refl Hty Hsub) as (chosen & Hrun & _ & _ & Hempty).
  rewrite (Hempty Hnone) in Hrun. exact Hrun.
Defined.

Lemma end_to_end_scenario_witness :
  (forall entries, inOrder entries ≡ₚ entries)
  /\ UseLoadBalancerForAPI scenarioCluster = true
  /\ ClusterSpec_LoadBalancer (Cluster_Spec scenarioCluster) = Some publicLoadBalancer
  /\ LoadBalancerAccessSpec_Type publicLoadBalancer = LoadBalancerTypePublic
  /\ ClusterSpec_Subnets (Cluster_Spec scenarioCluster) = [subnetA; subnetB]
  /\ MasterInstanceGroups scenarioCluster = [masterOnB]
  /\ InstanceGroup_Subnets masterOnB = ["B"]
  /\ scoreOf scenarioCluster subnetA = 1
  /\ scoreOf scenarioCluster subnetB = 1
  /\ (forall w, exists w',
        chooseBestSubnetForELB scenarioCluster "us-east-1a"
          (ClusterSpec_Subnets (Cluster_Spec scenarioCluster)) w
        = (Return (Some subnetA), w'))
  /\ (forall w, exists w' elb rest,
        Build inOrder wholeSeconds scenarioCluster w = (Return tt, w')
        /\ Tasks w' = Tasks w ++ TaskLoadBalancer elb :: rest
        /\ loadBalancers rest = []
        /\ LoadBalancer_Subnets elb = [LinkToSubnet scenarioCluster (Some subnetA)]).
Proof.
  split; [intros entries; reflexivity|].
  do 6 (split; [reflexivity|]).
  exact (end_to_end_scenario inOrder wholeSeconds
           (fun entries => Permutation_refl (inOrder entries))
           scenarioCluster publicLoadBalancer masterOnB
           eq_refl eq_refl eq_refl (or_introl eq_refl) eq_refl eq_refl).
Defined.

Lemma choose_never_panics_witness :
  (forall entries, inOrder entries ≡ₚ entries)
  /\ (forall zone subnets w, exists r w',
        chooseBestSubnetForELB twoZoneCluster zone subnets w = (Return r, w')
        /\ (r = None <-> subnets = []))
  /\ (forall lbSpec_Type Subnets w subnetsByZone w',
        subnetsByZone_loop lbSpec_Type Subnets ∅ w = (Return subnetsByZone, w') ->
        forall zone subnets,
          (zone, subnets) ∈ inOrder (map_to_list subnetsByZone) ->
          subnets <> []
          /\ exists s, forall w0, exists w1,
               chooseBestSubnetForELB twoZoneCluster zone subnets w0
               = (Return (Some s), w1))
  /\ (forall w msg, fst (Build inOrder wholeSeconds twoZoneCluster w) <> Panic msg).
Proof.
  split; [intros entries; reflexivity|].
  exact (choose_never_panics inOrder wholeSeconds
           (fun entries => Permutation_refl (inOrder entries)) twoZoneCluster).
Defined.

(** C6, as stated, fails: the cluster has a subnet of a type the builder does
    not know, but does not put a load balancer in front of the API; [Build]
    returns nil at the guard, before it looks at the subnets. *)
Lemma guard_before_type_checks :
  (exists s, s ∈ ClusterSpec_Subnets (Cluster_Spec noLoadBalancerUnknownSubnetCluster)
     /\ ClusterSubnetSpec_Type s <> SubnetTypePublic
     /\ ClusterSubnetSpec_Type s <> SubnetTypeUtility
     /\ ClusterSubnetSpec_Type s <> SubnetTypePrivate)
  /\ Build inOrder wholeSeconds noLoadBalancerUnknownSubnetCluster emptyWorld = (Return tt, emptyWorld).
Proof.
  split; [|reflexivity].
  exists subnetX. split; [right; left|]. repeat split; discriminate.
Qed.

(** C7, as stated, fails: the cluster has the two CIDRs in its API-access
    list, but does not put a load balancer in front of the API; [Build] adds
    no ingress rule. *)
Lemma guard_before_ingress_rules :
  ClusterSpec_KubernetesAPIAccess (Cluster_Spec noLoadBalancerCluster)
  = ["10.0.0.0/8"; "192.168.1.0/24"]
  /\ Build inOrder wholeSeconds noLoadBalancerCluster emptyWorld = (Return tt, emptyWorld)
  /\ List.filter isIngressRule
       (Tasks (snd (Build inOrder wholeSeconds noLoadBalancerCluster emptyWorld))) = [].
Proof. repeat split. Qed.

Lemma one_subnet_per_zone_witness :
  (forall entries, inOrder entries ≡ₚ entries)
  /\ UseLoadBalancerForAPI twoZoneCluster = true
  /\ ClusterSpec_LoadBalancer (Cluster_Spec twoZoneCluster) = Some publicLoadBalancer
  /\ validLoadBalancerType (LoadBalancerAccessSpec_Type publicLoadBalancer) = true
  /\ forallb knownSubnetType (ClusterSpec_Subnets (Cluster_Spec twoZoneCluster)) = true
  /\ exists chosen,
       (forall w, exists w' elb rest,
          Build inOrder wholeSeconds twoZoneCluster w = (Return tt, w')
          /\ Tasks w' = Tasks w ++ TaskLoadBalancer elb :: rest
          /\ loadBalancers rest = []
          /\ LoadBalancer_Subnets elb
             = map (fun s => LinkToSubnet twoZoneCluster (Some s)) chosen)
       /\ NoDup (map ClusterSubnetSpec_Zone chosen)
       /\ (forall zone,
             (exists s, s ∈ chosen /\ ClusterSubnetSpec_Zone s = zone)
             <-> (exists s, s ∈ ClusterSpec_Subnets (Cluster_Spec twoZoneCluster)
                    /\ compatible (LoadBalancerAccessSpec_Type publicLoadBalancer) s = true
                    /\ ClusterSubnetSpec_Zone s = zone)).
Proof.
  split; [intros entries; reflexivity|].
  do 4 (split; [reflexivity|]).
  exact (one_subnet_per_zone inOrder wholeSeconds
           (fun entries => Permutation_refl (inOrder entries))
           twoZoneCluster publicLoadBalancer eq_refl eq_refl eq_refl eq_refl).
Defined.

(** ** The methods of [ByScoreDescending] and the sort that calls them *)

Lemma index_int_in_range {A} (a : list A) (i : nat) (x : A) (w : World) :
  a !! i = Some x -> index_int a (Z.of_nat i) w = (Return x, w).
Proof.
  intros Hx. unfold index_int, index.
  pose proof (lookup_lt_Some _ _ _ Hx) as Hlt.
  replace ((0 <=? Z.of_nat i) && (Z.of_nat i <? Z.of_nat (length a))) with true.
  - now rewrite Nat2Z.id, Hx.
  - symmetry. apply andb_true_iff. split; [apply Z.leb_le | apply Z.ltb_lt]; lia.
Qed.

Lemma index_int_out_of_range {A} (a : list A) (i : Z) (w : World) :
  ~ (0 <= i < Z.of_nat (length a)) ->
  index_int a i w = (Panic "index out of range", w).
Proof.
  intros Hout. unfold index_int.
  destruct ((0 <=? i) && (i <? Z.of_nat (length a))) eqn:E; [|reflexivity].
  apply andb_true_iff in E as [H1 H2]. apply Z.leb_le in H1. apply Z.ltb_lt in H2. lia.
Qed.

(** The slice after the two assignments of [Swap], index by index. *)
Lemma swap_lookup (a : list scoredSubnet) (i j k : nat) (x y : scoredSubnet) :
  a !! i = Some x -> a !! j = Some y ->
  <[j := x]> (<[i := y]> a) !! k
  = a !! (if decide (k = i) then j else if decide (k = j) then i else k).
Proof.
  intros Hx Hy.
  pose proof (lookup_lt_Some _ _ _ Hx) as Hi.
  pose proof (lookup_lt_Some _ _ _ Hy) as Hj.
  destruct (decide (k = j)) as [->|Hkj].
  - rewrite list_lookup_insert_eq by now rewrite length_insert.
    destruct (decide (j = i)) as [->|Hji]; congruence.
  - rewrite list_lookup_insert_ne by congruence.
    destruct (decide (k = i)) as [->|Hki].
    + now rewrite list_lookup_insert_eq.
    + now rewrite list_lookup_insert_ne by congruence.
Qed.

Lemma swap_Permutation (a : list scoredSubnet) (i j : nat) (x y : scoredSubnet) :
  a !! i = Some x -> a !! j = Some y -> <[j := x]> (<[i := y]> a) ≡ₚ a.
Proof.
  intros Hx Hy. apply Permutation_inj. split; [now rewrite !length_insert|].
  exists (fun k => if decide (k = i) then j else if decide (k = j) then i else k).
  split; [|intros k; now apply swap_lookup].
  intros k1 k2 Hk. repeat case_decide; congruence.
Qed.

(** [Swap] on two indices in range exchanges the two elements and leaves the
    others where they are: the slice keeps its length and its elements, and a
    second [Swap] of the same indices restores it.  [Swap] on an index out of
    range panics. *)
Theorem Swap_exchanges (a : list scoredSubnet) (i j : Z) (w : World) :
  (0 <= i < ByScoreDescending_Len a -> 0 <= j < ByScoreDescending_Len a ->
   exists a',
     ByScoreDescending_Swap a i j w = (Return a', w)
     /\ ByScoreDescending_Len a' = ByScoreDescending_Len a
     /\ a' ≡ₚ a
     /\ a' !! Z.to_nat i = a !! Z.to_nat j
     /\ a' !! Z.to_nat j = a !! Z.to_nat i
     /\ (forall k : nat, k <> Z.to_nat i -> k <> Z.to_nat j -> a' !! k = a !! k)
     /\ ByScoreDescending_Swap a' i j w = (Return a, w))
  /\ (~ (0 <= i < ByScoreDescending_Len a /\ 0 <= j < ByScoreDescending_Len a) ->
      ByScoreDescending_Swap a i j w = (Panic "index out of range", w)).
Proof.
  unfold ByScoreDescending_Len. split.
  - intros Hi Hj.
    destruct (lookup_lt_is_Some_2 a (Z.to_nat i)) as [x Hx]; [lia|].
    destruct (lookup_lt_is_Some_2 a (Z.to_nat j)) as [y Hy]; [lia|].
    set (a' := <[Z.to_nat j := x]> (<[Z.to_nat i := y]> a)).
    assert (Hrun : forall (b : list scoredSubnet) x' y',
              b !! Z.to_nat i = Some x' -> b !! Z.to_nat j = Some y' ->
              ByScoreDescending_Swap b i j w
              = (Return (<[Z.to_nat j := x']> (<[Z.to_nat i := y']> b)), w)).
    { intros b x' y' Hx' Hy'. unfold ByScoreDescending_Swap.
      rewrite <- (Z2Nat.id i), <- (Z2Nat.id j) by lia. rewrite !Nat2Z.id.
      erewrite bind_Return by (apply index_int_in_range; exact Hy').
      erewrite bind_Return by (apply index_int_in_range; exact Hx').
      reflexivity. }
    assert (Hlook : forall k, a' !! k
              = a !! (if decide (k = Z.to_nat i) then Z.to_nat j
                      else if decide (k = Z.to_nat j) then Z.to_nat i else k))
      by (intros k; now apply swap_lookup).
    exists a'. split; [now apply Hrun|]. split; [unfold a'; now rewrite !length_insert|].
    split; [now apply swap_Permutation|].
    split; [rewrite Hlook; now rewrite decide_True by reflexivity|].
    split.
    { rewrite Hlook. destruct (decide (Z.to_nat j = Z.to_nat i)) as [E|E];
        [now rewrite E | now rewrite decide_True by reflexivity]. }
    split.
    { intros k Hki Hkj. rewrite Hlook. now rewrite !decide_False by assumption. }
    assert (Hi' : a' !! Z.to_nat i = Some y).
    { rewrite Hlook, decide_True by reflexivity. exact Hy. }
    assert (Hj' : a' !! Z.to_nat j = Some x).
    { rewrite Hlook. destruct (decide (Z.to_nat j = Z.to_nat i)) as [E|E].
      - congruence.
      - now rewrite decide_True by reflexivity. }
    rewrite (Hrun a' y x Hi' Hj'). f_equal. f_equal.
    apply list_eq. intros k. rewrite (swap_lookup a' _ _ k y x Hi' Hj'), Hlook.
    repeat case_decide; congruence.
  - intros Hout. unfold ByScoreDescending_Swap.
    destruct (decide (0 <= j < Z.of_nat (length a))) as [Hj|Hj].
    + destruct (lookup_lt_is_Some_2 a (Z.to_nat j)) as [y Hy]; [lia|].
      rewrite <- (Z2Nat.id j) by lia.
      erewrite bind_Return by (apply index_int_in_range; exact Hy).
      unfold mbind, M_bind. rewrite index_int_out_of_range by tauto. reflexivity.
    + unfold mbind, M_bind. rewrite index_int_out_of_range by exact Hj. reflexivity.
Qed.

Lemma Less_in_range (a : list scoredSubnet) (i j : nat) (x y : scoredSubnet) (w : World) :
  a !! i = Some x -> a !! j = Some y ->
  ByScoreDescending_Less a (Z.of_nat i) (Z.of_nat j) w = (Return (Less x y), w).
Proof.
  intros Hx Hy. unfold ByScoreDescending_Less.
  erewrite bind_Return by (apply index_int_in_range; exact Hx).
  erewrite bind_Return by (apply index_int_in_range; exact Hy).
  reflexivity.
Qed.

Lemma Swap_in_range (a : list scoredSubnet) (i j : nat) (x y : scoredSubnet) (w : World) :
  a !! i = Some x -> a !! j = Some y ->
  ByScoreDescending_Swap a (Z.of_nat i) (Z.of_nat j) w
  = (Return (<[j := x]> (<[i := y]> a)), w).
Proof.
  intros Hx Hy. unfold ByScoreDescending_Swap.
  erewrite bind_Return by (apply index_int_in_range; exact Hy).
  erewrite bind_Return by (apply index_int_in_range; exact Hx).
  now rewrite !Nat2Z.id.
Qed.

Lemma insertionSort_inner_S (a : list scoredSubnet) (j : nat) :
  insertionSort_inner a (S j)
  = (less ← ByScoreDescending_Less a (Z.of_nat (S j)) (Z.of_nat j) ;
     if (less : bool) then
       a ← ByScoreDescending_Swap a (Z.of_nat (S j)) (Z.of_nat j) ;
       insertionSort_inner a j
     else ret a).
Proof.
  change (insertionSort_inner a (S j))
    with (less ← ByScoreDescending_Less a (Z.of_nat (S j)) (Z.of_nat (S j) - 1) ;
          if (less : bool) then
            a ← ByScoreDescending_Swap a (Z.of_nat (S j)) (Z.of_nat (S j) - 1) ;
            insertionSort_inner a j
          else ret a).
  now replace (Z.of_nat (S j) - 1) with (Z.of_nat j) by lia.
Qed.

(** The inner loop moves the element at [j] into the sorted part before it,
    as [insertion_step] does; every index is in range. *)
Lemma insertionSort_inner_run (sorted_rev : list scoredSubnet) (x : scoredSubnet)
    (rest : list scoredSubnet) (w : World) :
  insertionSort_inner (rev sorted_rev ++ x :: rest) (length sorted_rev) w
  = (Return (rev (insertion_step x sorted_rev) ++ rest), w).
Proof.
  revert rest. induction sorted_rev as [|y rp IH]; intros rest; [reflexivity|].
  cbn [length]. rewrite insertionSort_inner_S.
  assert (Hlen : length (rev rp) = length rp) by apply length_rev.
  assert (Ha : rev (y :: rp) ++ x :: rest = rev rp ++ y :: x :: rest).
  { simpl. now rewrite <- app_assoc. }
  assert (Hy : (rev (y :: rp) ++ x :: rest) !! length rp = Some y).
  { rewrite Ha, <- Hlen. apply list_lookup_middle. reflexivity. }
  assert (Hx : (rev (y :: rp) ++ x :: rest) !! S (length rp) = Some x).
  { apply list_lookup_middle. rewrite length_rev. reflexivity. }
  erewrite bind_Return by (apply Less_in_range; [exact Hx | exact Hy]).
  cbn [insertion_step]. destruct (Less x y).
  - erewrite bind_Return by (apply Swap_in_range; [exact Hx | exact Hy]).
    assert (Hswap : <[length rp := x]> (<[S (length rp) := y]> (rev (y :: rp) ++ x :: rest))
                    = rev rp ++ x :: y :: rest).
    { rewrite Ha.
      rewrite (insert_app_r_alt (rev rp) _ (S (length rp))) by lia.
      rewrite (insert_app_r_alt (rev rp) _ (length rp)) by lia.
      rewrite Hlen. replace (S (length rp) - length rp)%nat with 1%nat by lia.
      replace (length rp - length rp)%nat with 0%nat by lia. reflexivity. }
    rewrite Hswap, IH. simpl. now rewrite <- app_assoc.
  - unfold ret, mret, M_ret. f_equal. f_equal.
    change (rev (x :: y :: rp)) with (rev (y :: rp) ++ [x]). now rewrite <- app_assoc.
Qed.

Lemma insertion_step_length x sorted_rev :
  length (insertion_step x sorted_rev) = S (length sorted_rev).
Proof. apply (Permutation_length (insertion_step_Permutation x sorted_rev)). Qed.

Lemma insertionSort_outer_run (rest sorted_rev : list scoredSubnet) (w : World) :
  insertionSort_outer (rev sorted_rev ++ rest) (seq (length sorted_rev) (length rest)) w
  = (Return (rev (fold_left (fun sorted_rev x => insertion_step x sorted_rev)
                    rest sorted_rev)), w).
Proof.
  revert sorted_rev. induction rest as [|x rest IH]; intros rp; simpl.
  - now rewrite app_nil_r.
  - erewrite bind_Return by apply insertionSort_inner_run.
    rewrite <- (insertion_step_length x rp). apply IH.
Qed.

(** The insertion sort of the library, calling [Len], [Less] and [Swap] of
    [ByScoreDescending], never indexes out of range and leaves the slice
    [sort_Sort] returns; hence a slice with the same elements, in which no
    element is [Less] than one before it. *)
Theorem insertionSort_sorts (a : list scoredSubnet) (w : World) :
  insertionSort a w = (Return (sort_Sort a), w)
  /\ sort_Sort a ≡ₚ a
  /\ (forall i j x y, (i < j)%nat ->
        sort_Sort a !! i = Some x -> sort_Sort a !! j = Some y -> Less y x = false).
Proof.
  split; [|split].
  - unfold insertionSort, ByScoreDescending_Len. rewrite Nat2Z.id.
    destruct a as [|a0 rest]; [reflexivity|].
    cbn [length]. replace (S (length rest) - 1)%nat with (length rest) by lia.
    apply (insertionSort_outer_run rest [a0] w).
  - apply sort_Sort_Permutation.
  - intros i j x y Hij Hx Hy.
    pose proof (sort_Sort_sorted a) as Hs. unfold sortedByScoreDescending in Hs.
    revert i j Hij Hx Hy. induction Hs as [|h t Hs IH Hall]; intros i j Hij Hx Hy.
    + discriminate.
    + destruct j as [|j]; [lia|]. simpl in Hy.
      destruct i as [|i]; simpl in Hx.
      * injection Hx as ->. rewrite Forall_forall in Hall. apply Hall.
        apply list_elem_of_lookup. eauto.
      * apply (IH i j); [lia | assumption | assumption].
Qed.

Lemma Less_trans (a b c : scoredSubnet) :
  Less a b = true -> Less b c = true -> Less a c = true.
Proof.
  rewrite !Less_true. intros [H1|[H1 N1]] [H2|[H2 N2]]; try (left; lia).
  right. split; [lia | eapply string_ltb_trans; eauto].
Qed.

(** [Less] is a strict weak ordering, as [sort.Sort] needs: it orders by
    higher score first and then by smaller subnet name, and it leaves two
    elements unordered exactly when they have the same score and the same
    subnet name. *)
Theorem Less_strict_weak_order :
  (forall a, Less a a = false)
  /\ (forall a b, Less a b = true -> Less b a = false)
  /\ (forall a b c, Less a b = true -> Less b c = true -> Less a c = true)
  /\ (forall a b c, Less a b = false -> Less b c = false -> Less a c = false)
  /\ (forall a b,
        Less a b = true <->
        score b < score a
        \/ (score a = score b
            /\ String.ltb (ClusterSubnetSpec_Name (subnet a))
                          (ClusterSubnetSpec_Name (subnet b)) = true))
  /\ (forall a b,
        Less a b = false /\ Less b a = false <->
        score a = score b
        /\ ClusterSubnetSpec_Name (subnet a) = ClusterSubnetSpec_Name (subnet b)).
Proof.
  split; [exact Less_irrefl|]. split; [exact Less_asym|]. split; [exact Less_trans|].
  split; [exact Less_false_trans|]. split; [exact Less_true|].
  intros a b. split.
  - intros [H1 H2]. now apply Less_false_antisym.
  - intros [Hs Hn]. rewrite !Less_false, <- Hn.
    split; right; (split; [lia | apply string_ltb_irrefl]).
Qed.

(** ** What the choice depends on *)

Lemma migSubnets_ext (b1 b2 : KopsModelContext) :
  (forall name, inMasterSubnets b1 name <-> inMasterSubnets b2 name) ->
  migSubnets b1 = migSubnets b2.
Proof.
  intros H. apply set_eq. intros name. now rewrite !elem_of_migSubnets.
Qed.

(** The choice looks at the master instance groups only through the set of
    subnet names they list: two receivers whose master instance groups list
    the same names, in whatever groups, order and number of times, make
    [chooseBestSubnetForELB] return the same on every slice. *)
Theorem choice_depends_on_master_subnet_names (b1 b2 : KopsModelContext)
    (zone : string) (subnets : list ClusterSubnetSpec) (w : World) :
  (forall name, inMasterSubnets b1 name <-> inMasterSubnets b2 name) ->
  chooseBestSubnetForELB b1 zone subnets w = chooseBestSubnetForELB b2 zone subnets w.
Proof.
  intros H. unfold chooseBestSubnetForELB. now rewrite (migSubnets_ext b1 b2 H).
Qed.

(** The returned subnet, when the slice is not empty. *)
Lemma chooseBest_isBest b zone subnets w :
  subnets <> [] ->
  exists r w',
    chooseBestSubnetForELB b zone subnets w = (Return (Some r), w')
    /\ isBest b subnets r.
Proof.
  intros Hne.
  destruct (chooseBestSubnetForELB_run b zone subnets) as [log Hrun].
  destruct (bestSubnet_isBest b subnets Hne) as (r & Hr & Hbest).
  exists r, (logged w log). now rewrite Hrun, Hr.
Qed.

(** For an internal load balancer the candidates are private subnets, none of
    type utility: then the function returns a subnet of a master instance
    group whenever the slice has one. *)
Theorem prefers_master_subnets (b : KopsModelContext) (zone : string)
    (subnets : list ClusterSubnetSpec) (w : World) :
  (forall x, x ∈ subnets -> ClusterSubnetSpec_Type x <> SubnetTypeUtility) ->
  (exists x, x ∈ subnets /\ inMasterSubnets b (ClusterSubnetSpec_Name x)) ->
  exists r w',
    chooseBestSubnetForELB b zone subnets w = (Return (Some r), w')
    /\ r ∈ subnets
    /\ inMasterSubnets b (ClusterSubnetSpec_Name r).
Proof.
  intros Hnot (x & Hx & Hm).
  assert (Hne : subnets <> []) by (intros ->; inversion Hx).
  destruct (chooseBest_isBest b zone subnets w Hne) as (r & w' & Hrun & Hbest).
  exists r, w'. split; [exact Hrun|]. split; [apply Hbest|].
  pose proof (isBest_score b subnets r x Hbest Hx) as Hle.
  rewrite !scoreOf_cases in Hle.
  apply elem_of_migSubnets in Hm. rewrite (bool_decide_eq_true_2 _ Hm) in Hle.
  assert (Hr : r ∈ subnets) by apply Hbest.
  apply Hnot in Hr. apply Hnot in Hx.
  apply String.eqb_neq in Hr, Hx. rewrite Hr, Hx in Hle.
  apply elem_of_migSubnets. case_bool_decide; [assumption | lia].
Qed.

(** For a public load balancer the candidates are public and utility subnets:
    the function returns a utility subnet whenever the slice has one and none
    of its other subnets is a subnet of a master instance group. *)
Theorem prefers_utility_subnets (b : KopsModelContext) (zone : string)
    (subnets : list ClusterSubnetSpec) (w : World) :
  (exists x, x ∈ subnets /\ ClusterSubnetSpec_Type x = SubnetTypeUtility) ->
  (forall x, x ∈ subnets -> ClusterSubnetSpec_Type x <> SubnetTypeUtility ->
     ~ inMasterSubnets b (ClusterSubnetSpec_Name x)) ->
  exists r w',
    chooseBestSubnetForELB b zone subnets w = (Return (Some r), w')
    /\ r ∈ subnets
    /\ ClusterSubnetSpec_Type r = SubnetTypeUtility.
Proof.
  intros (x & Hx & Hu) Hothers.
  assert (Hne : subnets <> []) by (intros ->; inversion Hx).
  destruct (chooseBest_isBest b zone subnets w Hne) as (r & w' & Hrun & Hbest).
  exists r, w'. split; [exact Hrun|]. split; [apply Hbest|].
  pose proof (isBest_score b subnets r x Hbest Hx) as Hle.
  rewrite !scoreOf_cases in Hle.
  apply String.eqb_eq in Hu. rewrite Hu in Hle.
  destruct (String.eqb_spec (ClusterSubnetSpec_Type r) SubnetTypeUtility) as [Hr|Hr];
    [exact Hr|].
  assert (Hnm : ~ inMasterSubnets b (ClusterSubnetSpec_Name r))
    by (apply Hothers; [apply Hbest | exact Hr]).
  rewrite <- elem_of_migSubnets in Hnm. rewrite (bool_decide_eq_false_2 _ Hnm) in Hle.
  case_bool_decide; lia.
Qed.

(** ** The log of the choice *)

Lemma sorted_lookup (a : list scoredSubnet) (i j : nat) (x y : scoredSubnet) :
  sortedByScoreDescending a -> (i < j)%nat ->
  a !! i = Some x -> a !! j = Some y -> Less y x = false.
Proof.
  unfold sortedByScoreDescending. intros Hs. revert i j.
  induction Hs as [|h t Hs IH Hall]; intros i j Hij Hx Hy; [discriminate|].
  destruct j as [|j]; [lia|]. simpl in Hy.
  destruct i as [|i]; simpl in Hx.
  - injection Hx as ->. rewrite Forall_forall in Hall. apply Hall.
    apply list_elem_of_lookup. eauto.
  - apply (IH i j); [lia | assumption | assumption].
Qed.

(** The run of the function on a slice of two or more subnets, from the
    first two elements of the sorted slice. *)
Lemma chooseBestSubnetForELB_sorted b zone subnets s0 s1 sorted w :
  (2 <= length subnets)%nat ->
  sort_Sort (map (scoreSubnet (migSubnets b)) subnets) = s0 :: s1 :: sorted ->
  chooseBestSubnetForELB b zone subnets w
  = (Return (Some (subnet s0)),
     if score s0 =? score s1 then
       logged w
         [V_Infof 2
            "Making arbitrary choice between subnets in zone %q to attach to ELB (%q vs %q)"
            [zone; ClusterSubnetSpec_Name (subnet s0); ClusterSubnetSpec_Name (subnet s1)]]
     else w).
Proof.
  intros Hlen Hsort.
  destruct subnets as [|x0 [|x1 rest]]; simpl in Hlen; try lia.
  unfold chooseBestSubnetForELB. cbv zeta. rewrite Hsort.
  unfold index; simpl. unfold mbind, M_bind, ret, mret, M_ret, glog_V_Infof.
  destruct (score s0 =? score s1); reflexivity.
Qed.

(** The first two elements of the sorted slice have the same score exactly
    when two subnets of the slice are tied at the top. *)
Lemma sorted_tie b subnets s0 s1 sorted :
  sort_Sort (map (scoreSubnet (migSubnets b)) subnets) = s0 :: s1 :: sorted ->
  score s0 = score s1 <-> tiedAtTop b subnets.
Proof.
  intros Hsort.
  set (scored := map (scoreSubnet (migSubnets b)) subnets) in *.
  pose proof (sort_Sort_Permutation scored) as Hp.
  pose proof (sort_Sort_sorted scored) as Hs.
  rewrite Hsort in Hp, Hs.
  assert (Hscored : forall k, scored !! k = scoreSubnet (migSubnets b) <$> subnets !! k)
    by (intros k; apply list_lookup_fmap).
  assert (Hmax : forall z, z ∈ subnets -> scoreOf b z <= score s0).
  { intros z Hz.
    destruct (sorted_head_least scored (s0 :: s1 :: sorted) s0 Hp Hs eq_refl) as [_ Hleast].
    assert (Hin : scoreSubnet (migSubnets b) z ∈ scored).
    { apply list_elem_of_In, in_map. now apply list_elem_of_In. }
    apply Hleast, Less_false in Hin. unfold scoreOf. lia. }
  split.
  - intros Htie.
    apply Permutation_inj in Hp as [_ (f & Hinj & Hf)].
    pose proof (Hf 0%nat) as H0. pose proof (Hf 1%nat) as H1. simpl in H0, H1.
    rewrite Hscored in H0, H1.
    destruct (subnets !! f 0%nat) as [x|] eqn:Ex; [|discriminate].
    destruct (subnets !! f 1%nat) as [y|] eqn:Ey; [|discriminate].
    simpl in H0, H1. injection H0 as H0. injection H1 as H1.
    exists (f 0%nat), (f 1%nat), x, y.
    split; [intros E; apply Hinj in E; discriminate|].
    split; [exact Ex|]. split; [exact Ey|].
    assert (Hx : scoreOf b x = score s0) by (unfold scoreOf; now rewrite <- H0).
    assert (Hy : scoreOf b y = score s1) by (unfold scoreOf; now rewrite <- H1).
    split; [lia|]. intros z Hz. rewrite Hx. now apply Hmax.
  - intros (i & j & x & y & Hij & Hx & Hy & Hxy & Htop).
    assert (Hin : s0 ∈ scored) by (rewrite <- Hp; left).
    symmetry in Hp. apply Permutation_inj in Hp as [_ (h & Hinj & Hh)].
    assert (Hs0 : score s0 = scoreOf b x).
    { apply list_elem_of_In, in_map_iff in Hin as (z & <- & Hz).
      apply list_elem_of_In in Hz.
      pose proof (Htop z Hz). pose proof (Hmax x (list_elem_of_lookup_2 _ _ _ Hx)).
      unfold scoreOf in *. lia. }
    assert (Hs1 : score s1 <= score s0).
    { pose proof (sorted_lookup _ 0 1 s0 s1 Hs) as H. apply Less_false in H; [lia|lia|..];
        reflexivity. }
    assert (Hplace : forall k z, subnets !! k = Some z -> scoreOf b z = scoreOf b x ->
              h k <> 0%nat -> scoreOf b x <= score s1).
    { intros k z Hk Hz Hne.
      pose proof (Hh k) as Hk'. rewrite Hscored, Hk in Hk'. simpl in Hk'. symmetry in Hk'.
      destruct (h k) as [|[|p]] eqn:Ehk; [congruence| |].
      - simpl in Hk'. injection Hk' as Hk'.
        unfold scoreOf in *. rewrite Hk'. lia.
      - pose proof (sorted_lookup _ 1 (S (S p)) s1 _ Hs ltac:(lia) eq_refl Hk') as H.
        apply Less_false in H. unfold scoreOf in *. lia. }
    destruct (decide (h i = 0%nat)) as [Hi0|Hi0].
    + assert (Hj0 : h j <> 0%nat) by (intros E; apply Hij, Hinj; congruence).
      pose proof (Hplace j y Hy (eq_sym Hxy) Hj0). lia.
    + pose proof (Hplace i x Hx eq_refl Hi0). lia.
Qed.

(** The function adds no task.  It logs that its choice is arbitrary, once,
    exactly when two subnets of the slice are tied at the top; on a slice of
    fewer than two subnets it logs nothing. *)
Theorem tie_is_logged (b : KopsModelContext) (zone : string)
    (subnets : list ClusterSubnetSpec) (w : World) :
  exists r w',
    chooseBestSubnetForELB b zone subnets w = (Return r, w')
    /\ Tasks w' = Tasks w
    /\ ((tiedAtTop b subnets
         /\ exists name0 name1,
              Log w' = Log w
                ++ [V_Infof 2
                      "Making arbitrary choice between subnets in zone %q to attach to ELB (%q vs %q)"
                      [zone; name0; name1]])
        \/ (~ tiedAtTop b subnets /\ Log w' = Log w)).
Proof.
  destruct subnets as [|x0 [|x1 rest]].
  - exists None, w. repeat split. right. split; [|reflexivity].
    intros (i & j & x & y & _ & Hx & _). discriminate.
  - exists (Some x0), w. repeat split. right. split; [|reflexivity].
    intros (i & j & x & y & Hij & Hx & Hy & _).
    apply lookup_lt_Some in Hx, Hy. simpl in Hx, Hy. lia.
  - set (subnets := x0 :: x1 :: rest).
    assert (Hlen : (2 <= length subnets)%nat) by (simpl; lia).
    destruct (sort_Sort (map (scoreSubnet (migSubnets b)) subnets))
      as [|s0 [|s1 sorted]] eqn:Hsort;
      try (apply (f_equal (@length _)) in Hsort;
           rewrite sort_Sort_length, length_map in Hsort; simpl in Hsort; lia).
    pose proof (sorted_tie b subnets s0 s1 sorted Hsort) as Htie.
    eexists _, _. split; [apply (chooseBestSubnetForELB_sorted _ _ _ _ _ _ _ Hlen Hsort)|].
    destruct (Z.eqb_spec (score s0) (score s1)) as [E|E].
    + split; [reflexivity|]. left. split; [now apply Htie|]. eauto.
    + split; [reflexivity|]. right. split; [|reflexivity]. intros Ht. now apply Htie in Ht.
Qed.

(** ** The map of the first loop *)

Lemma subnetsByZone_loop_first_unknown lbSpec_Type (known : list ClusterSubnetSpec)
    (s : ClusterSubnetSpec) (rest : list ClusterSubnetSpec)
    (subnetsByZone : gmap string (list ClusterSubnetSpec)) (w : World) :
  forallb knownSubnetType known = true -> knownSubnetType s = false ->
  subnetsByZone_loop lbSpec_Type (known ++ s :: rest) subnetsByZone w
  = (Fail (Errorf "subnet %q had unknown type %q"
             [ClusterSubnetSpec_Name s; ClusterSubnetSpec_Type s]), w).
Proof.
  intros Hknown Hs. revert subnetsByZone.
  induction known as [|x known IH]; intros m; simpl.
  - unfold knownSubnetType in Hs. apply orb_false_iff in Hs as [Hpub Hpriv].
    now rewrite Hpub, Hpriv.
  - simpl in Hknown. apply andb_true_iff in Hknown as [Hx Hknown].
    specialize (IH Hknown). unfold knownSubnetType in Hx.
    destruct (String.eqb (ClusterSubnetSpec_Type x) SubnetTypePublic
              || String.eqb (ClusterSubnetSpec_Type x) SubnetTypeUtility) eqn:Hpub.
    + destruct (String.eqb lbSpec_Type LoadBalancerTypePublic); simpl; apply IH.
    + simpl in Hx. rewrite Hx.
      destruct (String.eqb lbSpec_Type LoadBalancerTypeInternal); simpl; apply IH.
Qed.

(** The first loop of [Build] leaves the collection and the log as they are.
    When every subnet has a known type it returns a map that has, for a zone
    with a compatible subnet, the compatible subnets of the zone in the order
    of the cluster specification, and that has no key for any other zone.
    Otherwise it returns the error of the first subnet of unknown type,
    whether or not the load balancer could use that subnet. *)
Theorem subnetsByZone_loop_map (lbSpec_Type : string) (Subnets : list ClusterSubnetSpec)
    (w : World) :
  (forallb knownSubnetType Subnets = true ->
   exists subnetsByZone,
     subnetsByZone_loop lbSpec_Type Subnets ∅ w = (Return subnetsByZone, w)
     /\ forall zone,
          subnetsByZone !! zone
          = match candidates lbSpec_Type Subnets zone with
            | [] => None
            | subnets => Some subnets
            end)
  /\ (forall known s rest,
        Subnets = known ++ s :: rest ->
        forallb knownSubnetType known = true -> knownSubnetType s = false ->
        subnetsByZone_loop lbSpec_Type Subnets ∅ w
        = (Fail (Errorf "subnet %q had unknown type %q"
                   [ClusterSubnetSpec_Name s; ClusterSubnetSpec_Type s]), w)).
Proof.
  split.
  - intros Hknown. eexists. split; [now apply subnetsByZone_loop_known|].
    intros zone. rewrite fold_addSubnet_lookup, lookup_empty. unfold candidates.
    now destruct (List.filter (inZone zone) (List.filter (compatible lbSpec_Type) Subnets)).
  - intros known s rest -> Hknown Hs. now apply subnetsByZone_loop_first_unknown.
Qed.

(** ** The collection *)

Lemma TaskGraph_has_true g name :
  TaskGraph_has g name = true <-> name ∈ TaskGraph_names g.
Proof. unfold TaskGraph_has. apply bool_decide_eq_true. Qed.

Lemma TaskGraph_has_false g name :
  TaskGraph_has g name = false <-> name ∉ TaskGraph_names g.
Proof. unfold TaskGraph_has. apply bool_decide_eq_false. Qed.

Lemma TaskGraph_names_app g1 g2 :
  TaskGraph_names (g1 ++ g2) = TaskGraph_names g1 ++ TaskGraph_names g2.
Proof. apply map_app. Qed.


Lemma NoDup_names_insert g t :
  NoDup (TaskGraph_names g) -> NoDup (TaskGraph_names (TaskGraph_insert g t)).
Proof.
  intros Hnd. unfold TaskGraph_insert.
  destruct (TaskGraph_has g (taskName t)) eqn:Hhas; [exact Hnd|].
  apply TaskGraph_has_false in Hhas.
  rewrite TaskGraph_names_app. apply NoDup_app. split; [exact Hnd|].
  split; [|apply NoDup_singleton].
  intros name Hin Hname. simpl in Hname. apply list_elem_of_singleton in Hname as ->.
  now apply Hhas.
Qed.

(** The mapping never has two entries of one name. *)
Lemma NoDup_names_fold ts : forall g,
  NoDup (TaskGraph_names g) ->
  NoDup (TaskGraph_names (fold_left TaskGraph_insert ts g)).
Proof.
  induction ts as [|t rest IH]; intros g Hnd; simpl; [exact Hnd|].
  now apply IH, NoDup_names_insert.
Qed.




(** No task is repeated exactly when the names of the calls are pairwise
    different and none of them is in the mapping before. *)
Lemma repeatedTasks_nil ts : forall g,
  repeatedTasks g ts = [] <->
  NoDup (map taskName ts) /\ forall t, t ∈ ts -> taskName t ∉ TaskGraph_names g.
Proof.
  induction ts as [|t rest IH]; intros g; simpl.
  - split; [|reflexivity]. intros _. split; [apply NoDup_nil_2|].
    intros t Ht. inversion Ht.
  - unfold TaskGraph_insert. destruct (TaskGraph_has g (taskName t)) eqn:Hhas.
    + split; [discriminate|]. intros [_ Hfresh]. exfalso.
      apply TaskGraph_has_true in Hhas. apply (Hfresh t); [left | exact Hhas].
    + apply TaskGraph_has_false in Hhas. simpl. rewrite IH, NoDup_cons.
      split.
      * intros [Hnd Hfresh]. split; [split; [|exact Hnd]|].
        -- intros Hin. apply list_elem_of_In, in_map_iff in Hin as (t' & Hn & Ht').
           apply list_elem_of_In in Ht'. apply (Hfresh t' Ht').
           rewrite TaskGraph_names_app. apply elem_of_app. right. rewrite Hn. left.
        -- intros t' Ht'. apply elem_of_cons in Ht' as [->|Ht']; [exact Hhas|].
           intros Hin. apply (Hfresh t' Ht').
           rewrite TaskGraph_names_app. apply elem_of_app. now left.
      * intros [[Hnot Hnd] Hfresh]. split; [exact Hnd|].
        intros t' Ht'. rewrite TaskGraph_names_app. intros Hin.
        apply elem_of_app in Hin as [Hin|Hin].
        -- apply (Hfresh t'); [now right | exact Hin].
        -- simpl in Hin. apply list_elem_of_singleton in Hin. apply Hnot.
           rewrite <- Hin. apply list_elem_of_In, in_map. now apply list_elem_of_In.
Qed.



(** ** The errors and the tasks of a pass *)

Section Build_outcomes.

Variable range_order :
  list (string * list ClusterSubnetSpec) -> list (string * list ClusterSubnetSpec).
Variable Duration_Seconds_int64 : Z -> Z.

(** The order of the checks.  In a pass that gets past the guard, a
    load-balancer type that is neither internal nor public is the error
    [Build] returns, whatever the subnets are; with a valid type, the error
    is that of the first subnet of unknown type in the order of the cluster
    specification. *)
Theorem first_error_wins b lbSpec w :
  UseLoadBalancerForAPI b = true ->
  ClusterSpec_LoadBalancer (Cluster_Spec b) = Some lbSpec ->
  (validLoadBalancerType (LoadBalancerAccessSpec_Type lbSpec) = false ->
   Build range_order Duration_Seconds_int64 b w
   = (Fail (Errorf "unhandled LoadBalancer type %q"
              [LoadBalancerAccessSpec_Type lbSpec]), w))
  /\ (validLoadBalancerType (LoadBalancerAccessSpec_Type lbSpec) = true ->
      forall known s rest,
        ClusterSpec_Subnets (Cluster_Spec b) = known ++ s :: rest ->
        forallb knownSubnetType known = true -> knownSubnetType s = false ->
        Build range_order Duration_Seconds_int64 b w
        = (Fail (Errorf "subnet %q had unknown type %q"
                   [ClusterSubnetSpec_Name s; ClusterSubnetSpec_Type s]), w)).
Proof.
  intros Hen Hlb. split.
  - intros Hty. now apply Build_unhandled_type.
  - intros Hty known s rest Hsub Hknown Hs.
    apply (Build_loop_Fail range_order Duration_Seconds_int64 b lbSpec _ Hen Hlb Hty).
    intros w0. rewrite Hsub. now apply subnetsByZone_loop_first_unknown.
Qed.



Lemma ruleNames_rules {A} (f : A -> SecurityGroupRule) (l : list A) :
  ruleNames (map (fun x => TaskSecurityGroupRule (f x)) l)
  = map (fun x => SecurityGroupRule_Name (f x)) l.
Proof. induction l as [|x l IH]; simpl; [reflexivity | now rewrite <- IH]. Qed.

Lemma ruleNames_attachments {A} (f : A -> LoadBalancerAttachment) (l : list A) :
  ruleNames (map (fun x => TaskLoadBalancerAttachment (f x)) l) = [].
Proof. induction l as [|x l IH]; simpl; [reflexivity | exact IH]. Qed.

Lemma ruleNames_builtTasks b lbSpec elbSubnets idleTimeoutSeconds :
  ruleNames (builtTasks b lbSpec elbSubnets idleTimeoutSeconds)
  = Some "api-elb-egress"
    :: map (fun cidr => Some ("https-api-elb-" +:+ cidr))
         (ClusterSpec_KubernetesAPIAccess (Cluster_Spec b))
    ++ [Some "https-elb-to-master"].
Proof.
  unfold builtTasks, ruleNames. cbn [omap list_omap]. f_equal.
  rewrite omap_app. fold (ruleNames (map (fun cidr => TaskSecurityGroupRule (ingressRule b cidr))
    (ClusterSpec_KubernetesAPIAccess (Cluster_Spec b)))).
  rewrite (ruleNames_rules (ingressRule b)). f_equal.
  cbn [omap list_omap]. f_equal.
  apply (ruleNames_attachments (attachment b)).
Qed.

Lemma attachmentNames_rules {A} (f : A -> SecurityGroupRule) (l : list A) :
  attachmentNames (map (fun x => TaskSecurityGroupRule (f x)) l) = [].
Proof. induction l as [|x l IH]; simpl; [reflexivity | exact IH]. Qed.

Lemma attachmentNames_attachments {A} (f : A -> LoadBalancerAttachment) (l : list A) :
  attachmentNames (map (fun x => TaskLoadBalancerAttachment (f x)) l)
  = map (fun x => LoadBalancerAttachment_Name (f x)) l.
Proof. induction l as [|x l IH]; simpl; [reflexivity | now rewrite <- IH]. Qed.

Lemma attachmentNames_builtTasks b lbSpec elbSubnets idleTimeoutSeconds :
  attachmentNames (builtTasks b lbSpec elbSubnets idleTimeoutSeconds)
  = map (fun ig => Some ("api-" +:+ InstanceGroup_Name ig)) (MasterInstanceGroups b).
Proof.
  unfold builtTasks, attachmentNames. cbn [omap list_omap].
  rewrite omap_app.
  fold (attachmentNames (map (fun cidr => TaskSecurityGroupRule (ingressRule b cidr))
    (ClusterSpec_KubernetesAPIAccess (Cluster_Spec b)))).
  rewrite (attachmentNames_rules (ingressRule b)). cbn [omap list_omap app].
  apply (attachmentNames_attachments (attachment b)).
Qed.

Lemma NoDup_map_injective {A B} (f : A -> B) (l : list A) :
  (forall x y, f x = f y -> x = y) -> NoDup (map f l) <-> NoDup l.
Proof.
  intros Hinj. induction l as [|x l IH]; simpl.
  - split; intros _; apply NoDup_nil_2.
  - rewrite !NoDup_cons, IH.
    assert (Hin : f x ∈ map f l <-> x ∈ l).
    { rewrite !list_elem_of_In, in_map_iff. split.
      - intros (y & Hy & Hl). now rewrite <- (Hinj _ _ Hy).
      - intros Hl. now exists x. }
    now rewrite Hin.
Qed.

Lemma taskNames_builtTasks b lbSpec elbSubnets idleTimeoutSeconds :
  map taskName (builtTasks b lbSpec elbSubnets idleTimeoutSeconds)
  = Some ("api." +:+ ClusterName b)
    :: Some (ELBSecurityGroupName b "api")
    :: Some "api-elb-egress"
    :: map (fun cidr => Some ("https-api-elb-" +:+ cidr))
         (ClusterSpec_KubernetesAPIAccess (Cluster_Spec b))
    ++ Some "https-elb-to-master"
    :: map (fun ig => Some ("api-" +:+ InstanceGroup_Name ig)) (MasterInstanceGroups b).
Proof.
  unfold builtTasks. cbn [map]. rewrite map_app. cbn [map]. rewrite !map_map.
  reflexivity.
Qed.

(** The names of the tasks of a pass.  In a pass that gets past the guard
    and the type checks, the security-group rules [Build] hands to the
    collection have pairwise different names exactly when no CIDR occurs
    twice in the API-access list, and the attachments have pairwise
    different names exactly when no two master instance groups have the same
    name; so the names of the pass are pairwise different only if neither
    list has a repetition.  The collection enters every task of the pass in
    its mapping, none being a repeated task, exactly when the names of the
    pass are pairwise different and new to the mapping; the mapping never
    gets two entries of one name. *)
Theorem task_names_distinct b lbSpec w :
  UseLoadBalancerForAPI b = true ->
  ClusterSpec_LoadBalancer (Cluster_Spec b) = Some lbSpec ->
  validLoadBalancerType (LoadBalancerAccessSpec_Type lbSpec) = true ->
  forallb knownSubnetType (ClusterSpec_Subnets (Cluster_Spec b)) = true ->
  exists w' ts,
    Build range_order Duration_Seconds_int64 b w = (Return tt, w')
    /\ Tasks w' = Tasks w ++ ts
    /\ (NoDup (ruleNames ts) <-> NoDup (ClusterSpec_KubernetesAPIAccess (Cluster_Spec b)))
    /\ (NoDup (attachmentNames ts)
        <-> NoDup (map InstanceGroup_Name (MasterInstanceGroups b)))
    /\ (NoDup (map taskName ts) ->
        NoDup (ClusterSpec_KubernetesAPIAccess (Cluster_Spec b))
        /\ NoDup (map InstanceGroup_Name (MasterInstanceGroups b)))
    /\ (Repeated w' = Repeated w
        <-> NoDup (map taskName ts)
            /\ forall t, t ∈ ts -> taskName t ∉ TaskGraph_names (Graph w))
    /\ (NoDup (TaskGraph_names (Graph w)) -> NoDup (TaskGraph_names (Graph w'))).
Proof.
  intros Hen Hlb Hty Hsub.
  destruct (Build_ok range_order Duration_Seconds_int64 b lbSpec Hen Hlb Hty Hsub)
    as [log Hrun].
  assert (Hcidrs : NoDup (map (fun cidr => Some ("https-api-elb-" +:+ cidr))
                        (ClusterSpec_KubernetesAPIAccess (Cluster_Spec b)))
                   <-> NoDup (ClusterSpec_KubernetesAPIAccess (Cluster_Spec b))).
  { apply NoDup_map_injective. intros c1 c2 [= H]. exact H. }
  assert (Hmasters : NoDup (map (fun ig => Some ("api-" +:+ InstanceGroup_Name ig))
                          (MasterInstanceGroups b))
                     <-> NoDup (map InstanceGroup_Name (MasterInstanceGroups b))).
  { rewrite <- (map_map InstanceGroup_Name (fun name => Some ("api-" +:+ name))).
    apply NoDup_map_injective. intros n1 n2 [= H]. exact H. }
  do 2 eexists. split; [apply Hrun|]. split; [reflexivity|]. split; [|split; [|split]].
  - rewrite ruleNames_builtTasks.
    set (cidrs := ClusterSpec_KubernetesAPIAccess (Cluster_Spec b)) in *.
    set (names := map (fun cidr => Some ("https-api-elb-" +:+ cidr)) cidrs) in *.
    assert (Hegress : Some "api-elb-egress" ∉ names ++ [Some "https-elb-to-master"]).
    { intros Hin. apply elem_of_app in Hin as [Hin|Hin].
      - apply list_elem_of_In, in_map_iff in Hin as (c & Hc & _). discriminate.
      - apply list_elem_of_singleton in Hin. discriminate. }
    assert (Hmaster : forall x, x ∈ names -> x ∈ [Some "https-elb-to-master"] -> False).
    { intros x Hx Hm. apply list_elem_of_singleton in Hm as ->.
      apply list_elem_of_In, in_map_iff in Hx as (c & Hc & _). discriminate. }
    rewrite NoDup_cons, NoDup_app, Hcidrs. split.
    + tauto.
    + intros Hnd. split; [exact Hegress|]. split; [exact Hnd|].
      split; [exact Hmaster | apply NoDup_singleton].
  - rewrite attachmentNames_builtTasks. exact Hmasters.
  - rewrite taskNames_builtTasks. intros Hnd.
    do 3 (apply NoDup_cons in Hnd as [_ Hnd]).
    apply NoDup_app in Hnd as (Hc & _ & Hm).
    apply NoDup_cons in Hm as [_ Hm].
    split; [now apply Hcidrs | now apply Hmasters].
  - unfold added, logged. cbn [Tasks Graph Repeated Log]. split.
    + rewrite <- repeatedTasks_nil. split.
      * intros Heq. rewrite <- (app_nil_r (Repeated w)) in Heq at 2.
        now apply app_inv_head in Heq.
      * intros ->. now rewrite app_nil_r.
    + apply NoDup_names_fold.
Qed.

(** The idle timeout.  In a pass that gets past the guard and the type
    checks, the idle timeout of the load balancer is the seconds of a
    duration that fits an [int64]: five minutes when the cluster sets none;
    otherwise the given seconds times a second, wrapped around, which is the
    given number of seconds exactly when that number lies between
    -9223372036 and 9223372036. *)
Theorem idle_timeout_duration b lbSpec w :
  UseLoadBalancerForAPI b = true ->
  ClusterSpec_LoadBalancer (Cluster_Spec b) = Some lbSpec ->
  validLoadBalancerType (LoadBalancerAccessSpec_Type lbSpec) = true ->
  forallb knownSubnetType (ClusterSpec_Subnets (Cluster_Spec b)) = true ->
  exists w' elb rest d,
    Build range_order Duration_Seconds_int64 b w = (Return tt, w')
    /\ Tasks w' = Tasks w ++ TaskLoadBalancer elb :: rest
    /\ LoadBalancer_ConnectionSettings elb
       = Some {| LoadBalancerConnectionSettings_IdleTimeout :=
                   Some (Duration_Seconds_int64 d) |}
    /\ - 2 ^ 63 <= d < 2 ^ 63
    /\ (LoadBalancerAccessSpec_IdleTimeoutSeconds lbSpec = None -> d = 300 * 10 ^ 9)
    /\ (forall seconds,
          LoadBalancerAccessSpec_IdleTimeoutSeconds lbSpec = Some seconds ->
          (d - seconds * 10 ^ 9) mod 2 ^ 64 = 0
          /\ (d = seconds * 10 ^ 9 <-> -9223372036 <= seconds <= 9223372036)).
Proof.
  intros Hen Hlb Hty Hsub.
  destruct (Build_ok range_order Duration_Seconds_int64 b lbSpec Hen Hlb Hty Hsub)
    as [log Hrun].
  eexists _, _, _, (idleTimeoutOf lbSpec).
  split; [apply Hrun|]. split; [reflexivity|]. split; [reflexivity|].
  unfold idleTimeoutOf, int64_wrap, LoadBalancerDefaultIdleTimeout, time_Minute, time_Second.
  destruct (LoadBalancerAccessSpec_IdleTimeoutSeconds lbSpec) as [seconds|].
  - pose proof (Z.mod_pos_bound (1000000000 * seconds + 2 ^ 63) (2 ^ 64) ltac:(lia)) as Hb.
    split; [lia|]. split; [discriminate|].
    intros s' [= <-]. split.
    + replace ((1000000000 * seconds + 2 ^ 63) mod 2 ^ 64 - 2 ^ 63 - seconds * 10 ^ 9)
        with ((1000000000 * seconds + 2 ^ 63) mod 2 ^ 64
              - (1000000000 * seconds + 2 ^ 63)) by lia.
      rewrite Zminus_mod, Z.mod_mod by lia.
      now rewrite Z.sub_diag.
    + split.
      * intros Heq. lia.
      * intros Hrange. rewrite Z.mod_small by lia. lia.
  - split; [lia|]. split; [intros _; lia | discriminate].
Qed.

End Build_outcomes.

(** Every security-group rule of a pass is one of three. *)
Lemma securityGroupRule_builtTasks b lbSpec elbSubnets idleTimeoutSeconds r :
  TaskSecurityGroupRule r ∈ builtTasks b lbSpec elbSubnets idleTimeoutSeconds ->
  r = egressRule b
  \/ (exists cidr, cidr ∈ ClusterSpec_KubernetesAPIAccess (Cluster_Spec b)
        /\ r = ingressRule b cidr)
  \/ r = masterRule b.
Proof.
  unfold builtTasks. intros Hin.
  apply elem_of_cons in Hin as [Hin|Hin]; [discriminate|].
  apply elem_of_cons in Hin as [Hin|Hin]; [discriminate|].
  apply elem_of_cons in Hin as [Hin|Hin]; [left; congruence|].
  apply elem_of_app in Hin as [Hin|Hin].
  - apply list_elem_of_In, in_map_iff in Hin as (cidr & Hr & Hc).
    right; left. exists cidr. split; [now apply list_elem_of_In | congruence].
  - apply elem_of_cons in Hin as [Hin|Hin]; [right; right; congruence|].
    apply list_elem_of_In, in_map_iff in Hin as (ig & Hr & _). discriminate.
Qed.

Section Build_rules.

Variable range_order :
  list (string * list ClusterSubnetSpec) -> list (string * list ClusterSubnetSpec).
Variable Duration_Seconds_int64 : Z -> Z.

(** The rules open port 443 only.  Whatever the cluster, every security-group
    rule [Build] adds is either the one egress rule of the security group of
    the load balancer, to 0.0.0.0/0, or an ingress rule for tcp on port 443
    alone: into the security group of the load balancer from a CIDR of the
    API-access list, or into the security group of the masters from the
    security group of the load balancer and from no CIDR. *)
Theorem rules_open_only_443 b w :
  exists ts,
    Tasks (snd (Build range_order Duration_Seconds_int64 b w)) = Tasks w ++ ts
    /\ forall r, TaskSecurityGroupRule r ∈ ts ->
         SecurityGroupRule_Egress r = Some true
         /\ SecurityGroupRule_SecurityGroup r = Some (LinkToELBSecurityGroup b "api")
         /\ SecurityGroupRule_CIDR r = Some "0.0.0.0/0"
         \/ SecurityGroupRule_Egress r = None
            /\ SecurityGroupRule_Protocol r = Some "tcp"
            /\ SecurityGroupRule_FromPort r = Some 443
            /\ SecurityGroupRule_ToPort r = Some 443
            /\ (SecurityGroupRule_SecurityGroup r = Some (LinkToELBSecurityGroup b "api")
                /\ SecurityGroupRule_SourceGroup r = None
                /\ (exists cidr,
                      cidr ∈ ClusterSpec_KubernetesAPIAccess (Cluster_Spec b)
                      /\ SecurityGroupRule_CIDR r = Some cidr)
                \/ SecurityGroupRule_SecurityGroup r
                   = Some (LinkToSecurityGroup b InstanceGroupRoleMaster)
                   /\ SecurityGroupRule_SourceGroup r = Some (LinkToELBSecurityGroup b "api")
                   /\ SecurityGroupRule_CIDR r = None).
Proof.
  destruct (Build_cases range_order Duration_Seconds_int64 b)
    as [Hrun|[(format & args & _ & Hrun)|(lbSpec & log & links & _ & _ & Hrun)]];
    rewrite !Hrun; simpl.
  - exists []. split; [now rewrite app_nil_r|]. intros r Hr. inversion Hr.
  - exists []. split; [now rewrite app_nil_r|]. intros r Hr. inversion Hr.
  - eexists. split; [reflexivity|]. intros r Hr.
    apply securityGroupRule_builtTasks in Hr as [->|[(cidr & Hc & ->)| ->]].
    + left. repeat split.
    + right. do 4 (split; [reflexivity|]). left. do 2 (split; [reflexivity|]).
      exists cidr. split; [exact Hc | reflexivity].
    + right. do 4 (split; [reflexivity|]). right. repeat split.
Qed.

End Build_rules.

(** ** The subnets of the load balancer *)

Lemma filter_bool_Permutation {A} (f : A -> bool) (l k : list A) :
  l ≡ₚ k -> List.filter f l ≡ₚ List.filter f k.
Proof.
  induction 1 as [|x l k _ IH|x y l|l k m _ IH1 _ IH2]; simpl.
  - reflexivity.
  - destruct (f x); [now constructor | exact IH].
  - destruct (f x), (f y); try reflexivity. apply perm_swap.
  - now transitivity (List.filter f k).
Qed.

Lemma candidates_Permutation lbSpec_Type Subnets Subnets' zone :
  Subnets' ≡ₚ Subnets ->
  candidates lbSpec_Type Subnets' zone ≡ₚ candidates lbSpec_Type Subnets zone.
Proof. intros Hp. unfold candidates. now do 2 apply filter_bool_Permutation. Qed.

Lemma elem_of_candidates lbSpec_Type Subnets zone s :
  s ∈ candidates lbSpec_Type Subnets zone <->
  s ∈ Subnets /\ compatible lbSpec_Type s = true /\ ClusterSubnetSpec_Zone s = zone.
Proof.
  unfold candidates, inZone. rewrite !elem_of_filter_bool, String.eqb_eq. tauto.
Qed.

Lemma NoDup_map_NoDup {A B} (f : A -> B) (l : list A) : NoDup (map f l) -> NoDup l.
Proof.
  induction l as [|x l IH]; simpl; [intros _; apply NoDup_nil_2|].
  rewrite !NoDup_cons. intros [Hx Hl]. split; [|now apply IH].
  intros Hin. apply Hx. apply list_elem_of_In, in_map. now apply list_elem_of_In.
Qed.

Lemma isBest_ext b b' subnets s :
  MasterInstanceGroups b' = MasterInstanceGroups b ->
  isBest b subnets s -> isBest b' subnets s.
Proof.
  intros Hm. unfold isBest, migSubnets. now rewrite Hm.
Qed.

Section Build_choice.

Variable range_order :
  list (string * list ClusterSubnetSpec) -> list (string * list ClusterSubnetSpec).
Variable Duration_Seconds_int64 : Z -> Z.

(** The [range] visits every entry of the map once. *)
Hypothesis range_order_Permutation : forall entries, range_order entries ≡ₚ entries.

(** The subnets the second loop chooses: one best candidate of each zone that
    has a candidate. *)
Lemma elem_of_chosen_candidates b lbSpec_Type Subnets s :
  s ∈ chosenSubnets b (range_order (map_to_list (groupByZone lbSpec_Type Subnets)))
  -> isBest b (candidates lbSpec_Type Subnets (ClusterSubnetSpec_Zone s)) s.
Proof.
  intros Hs. apply elem_of_chosenSubnets in Hs as (zone & subnets & Hin & Hbest).
  apply (elem_of_range_groupByZone range_order range_order_Permutation) in Hin as [_ Heq].
  fold (candidates lbSpec_Type Subnets zone) in Heq. subst subnets.
  assert (Hz : ClusterSubnetSpec_Zone s = zone).
  { destruct Hbest as [Hs _]. now apply elem_of_candidates in Hs. }
  now rewrite Hz.
Qed.

Lemma chosen_candidates_elem_of b lbSpec_Type Subnets zone :
  candidates lbSpec_Type Subnets zone <> [] ->
  exists s,
    s ∈ chosenSubnets b (range_order (map_to_list (groupByZone lbSpec_Type Subnets)))
    /\ isBest b (candidates lbSpec_Type Subnets zone) s.
Proof.
  intros Hne.
  destruct (bestSubnet_isBest b _ Hne) as (s & Hs & Hbest).
  exists s. split; [|exact Hbest].
  unfold chosenSubnets. apply list_elem_of_omap.
  exists (zone, candidates lbSpec_Type Subnets zone). split; [|exact Hs].
  apply (elem_of_range_groupByZone range_order range_order_Permutation).
  split; [exact Hne | reflexivity].
Qed.

Lemma NoDup_chosenSubnets b lbSpec_Type Subnets :
  NoDup (chosenSubnets b (range_order (map_to_list (groupByZone lbSpec_Type Subnets)))).
Proof.
  apply (NoDup_map_NoDup ClusterSubnetSpec_Zone).
  rewrite chosenSubnets_zones.
  - rewrite range_order_Permutation. apply NoDup_fst_map_to_list.
  - intros zone subnets Hin.
    apply (elem_of_range_groupByZone range_order range_order_Permutation) in Hin
      as [Hne Heq].
    split; [exact Hne|]. intros s Hs. rewrite Heq in Hs.
    apply elem_of_filter_bool in Hs as [_ Hz]. now apply String.eqb_eq in Hz.
Qed.

Lemma links_are_chosenSubnets b lbSpec_Type Subnets :
  linksOf b (range_order (map_to_list (groupByZone lbSpec_Type Subnets)))
  = map (fun s => LinkToSubnet b (Some s))
      (chosenSubnets b (range_order (map_to_list (groupByZone lbSpec_Type Subnets)))).
Proof.
  apply linksOf_chosenSubnets. intros [zone subnets] Hin.
  now apply (elem_of_range_groupByZone range_order range_order_Permutation) in Hin
    as [Hne _].
Qed.

(** The subnet of a zone.  In a pass that gets past the guard and the type
    checks, every subnet the load balancer links is a subnet of the cluster
    that the load-balancer type can use, and it is the best such subnet of
    its zone: no compatible subnet of the zone has a higher score, and none
    with the same score has a smaller name. *)
Theorem linked_subnet_is_best_of_zone b lbSpec :
  UseLoadBalancerForAPI b = true ->
  ClusterSpec_LoadBalancer (Cluster_Spec b) = Some lbSpec ->
  validLoadBalancerType (LoadBalancerAccessSpec_Type lbSpec) = true ->
  forallb knownSubnetType (ClusterSpec_Subnets (Cluster_Spec b)) = true ->
  exists chosen,
    (forall w, exists w' elb rest,
       Build range_order Duration_Seconds_int64 b w = (Return tt, w')
       /\ Tasks w' = Tasks w ++ TaskLoadBalancer elb :: rest
       /\ loadBalancers rest = []
       /\ LoadBalancer_Subnets elb = map (fun s => LinkToSubnet b (Some s)) chosen)
    /\ forall s, s ∈ chosen ->
         s ∈ ClusterSpec_Subnets (Cluster_Spec b)
         /\ compatible (LoadBalancerAccessSpec_Type lbSpec) s = true
         /\ forall x,
              x ∈ ClusterSpec_Subnets (Cluster_Spec b) ->
              compatible (LoadBalancerAccessSpec_Type lbSpec) x = true ->
              ClusterSubnetSpec_Zone x = ClusterSubnetSpec_Zone s ->
              scoreOf b x <= scoreOf b s
              /\ (scoreOf b x = scoreOf b s ->
                  String.ltb (ClusterSubnetSpec_Name x) (ClusterSubnetSpec_Name s) = false).
Proof.
  intros Hen Hlb Hty Hsub.
  set (T := LoadBalancerAccessSpec_Type lbSpec) in *.
  set (Subnets := ClusterSpec_Subnets (Cluster_Spec b)) in *.
  exists (chosenSubnets b (range_order (map_to_list (groupByZone T Subnets)))).
  split.
  - intros w.
    destruct (Build_ok_load_balancer range_order Duration_Seconds_int64
                b lbSpec Hen Hlb Hty Hsub w)
      as (w' & elb & rest & Hrun & Htasks & Hrest & Hlinks).
    exists w', elb, rest. repeat split; try assumption.
    rewrite Hlinks. apply links_are_chosenSubnets.
  - intros s Hs. apply elem_of_chosen_candidates in Hs.
    pose proof (proj1 Hs) as Hin. apply elem_of_candidates in Hin as (Hin & Hc & _).
    split; [exact Hin|]. split; [exact Hc|].
    intros x Hx Hcx Hzx.
    assert (Hxc : x ∈ candidates T Subnets (ClusterSubnetSpec_Zone s))
      by now apply elem_of_candidates.
    split; [now apply (isBest_score b _ s x Hs) | now apply (isBest_name b _ s x Hs)].
Qed.

(** The order of the subnets of the cluster.  Take two clusters that differ
    only in the order in which they list their subnets, the names identifying
    the subnets.  In passes that get past the guard and the type checks, the
    two load balancers link the same subnets, up to the order of the links. *)
Theorem subnet_list_order_irrelevant b b' lbSpec :
  UseLoadBalancerForAPI b = true ->
  UseLoadBalancerForAPI b' = true ->
  ClusterSpec_LoadBalancer (Cluster_Spec b) = Some lbSpec ->
  ClusterSpec_LoadBalancer (Cluster_Spec b') = Some lbSpec ->
  validLoadBalancerType (LoadBalancerAccessSpec_Type lbSpec) = true ->
  forallb knownSubnetType (ClusterSpec_Subnets (Cluster_Spec b)) = true ->
  MasterInstanceGroups b' = MasterInstanceGroups b ->
  ClusterSpec_Subnets (Cluster_Spec b') ≡ₚ ClusterSpec_Subnets (Cluster_Spec b) ->
  namesIdentify (ClusterSpec_Subnets (Cluster_Spec b)) ->
  exists chosen chosen',
    (forall w, exists w' elb rest,
       Build range_order Duration_Seconds_int64 b w = (Return tt, w')
       /\ Tasks w' = Tasks w ++ TaskLoadBalancer elb :: rest
       /\ loadBalancers rest = []
       /\ LoadBalancer_Subnets elb = map (fun s => LinkToSubnet b (Some s)) chosen)
    /\ (forall w, exists w' elb rest,
          Build range_order Duration_Seconds_int64 b' w = (Return tt, w')
          /\ Tasks w' = Tasks w ++ TaskLoadBalancer elb :: rest
          /\ loadBalancers rest = []
          /\ LoadBalancer_Subnets elb = map (fun s => LinkToSubnet b' (Some s)) chosen')
    /\ chosen ≡ₚ chosen'.
Proof.
  intros Hen Hen' Hlb Hlb' Hty Hsub Hm Hp Hid.
  set (T := LoadBalancerAccessSpec_Type lbSpec) in *.
  set (Subnets := ClusterSpec_Subnets (Cluster_Spec b)) in *.
  set (Subnets' := ClusterSpec_Subnets (Cluster_Spec b')) in *.
  assert (Hsub' : forallb knownSubnetType Subnets' = true).
  { apply forallb_forall. intros x Hx. apply list_elem_of_In in Hx. rewrite Hp in Hx.
    apply list_elem_of_In in Hx. revert x Hx. now apply forallb_forall. }
  assert (Hidc : forall zone, namesIdentify (candidates T Subnets zone)).
  { intros zone x y Hx Hy. apply elem_of_candidates in Hx as [Hx _].
    apply elem_of_candidates in Hy as [Hy _]. now apply Hid. }
  assert (Hsame : forall zone s s',
            isBest b (candidates T Subnets zone) s ->
            isBest b' (candidates T Subnets' zone) s' -> s = s').
  { intros zone s s' Hs Hs'.
    apply (isBest_unique b (candidates T Subnets zone) (candidates T Subnets' zone));
      [apply Hidc | now apply candidates_Permutation | exact Hs |].
    now apply (isBest_ext b' b). }
  exists (chosenSubnets b (range_order (map_to_list (groupByZone T Subnets)))),
         (chosenSubnets b' (range_order (map_to_list (groupByZone T Subnets')))).
  split; [|split].
  - intros w.
    destruct (Build_ok_load_balancer range_order Duration_Seconds_int64
                b lbSpec Hen Hlb Hty Hsub w)
      as (w' & elb & rest & Hrun & Htasks & Hrest & Hlinks).
    exists w', elb, rest. repeat split; try assumption.
    rewrite Hlinks. apply links_are_chosenSubnets.
  - intros w.
    destruct (Build_ok_load_balancer range_order Duration_Seconds_int64
                b' lbSpec Hen' Hlb' Hty Hsub' w)
      as (w' & elb & rest & Hrun & Htasks & Hrest & Hlinks).
    exists w', elb, rest. repeat split; try assumption.
    rewrite Hlinks. apply links_are_chosenSubnets.
  - apply NoDup_Permutation; [apply NoDup_chosenSubnets | apply NoDup_chosenSubnets|].
    intros s. split; intros Hs; apply elem_of_chosen_candidates in Hs.
    + assert (Hne : candidates T Subnets' (ClusterSubnetSpec_Zone s) <> []).
      { intros E. pose proof (proj1 Hs) as Hin.
        rewrite <- (candidates_Permutation T Subnets Subnets' _ Hp), E in Hin.
        inversion Hin. }
      destruct (chosen_candidates_elem_of b' T Subnets' _ Hne) as (s' & Hin' & Hbest').
      now rewrite (Hsame _ s s' Hs Hbest').
    + assert (Hne : candidates T Subnets (ClusterSubnetSpec_Zone s) <> []).
      { intros E. pose proof (proj1 Hs) as Hin.
        rewrite (candidates_Permutation T Subnets Subnets' _ Hp), E in Hin.
        inversion Hin. }
      destruct (chosen_candidates_elem_of b T Subnets _ Hne) as (s0 & Hin0 & Hbest0).
      now rewrite <- (Hsame _ s0 s Hbest0 Hs).
Qed.

End Build_choice.

(** ** The properties, on the clusters *)

Lemma choice_depends_on_master_subnet_names_witness :
  (forall name, inMasterSubnets scenarioCluster name
                <-> inMasterSubnets scenarioClusterTwoMasters name)
  /\ chooseBestSubnetForELB scenarioCluster "us-east-1a" [subnetB; subnetA] emptyWorld
     = chooseBestSubnetForELB scenarioClusterTwoMasters "us-east-1a" [subnetB; subnetA]
         emptyWorld.
Proof.
  assert (H : forall name, inMasterSubnets scenarioCluster name
                           <-> inMasterSubnets scenarioClusterTwoMasters name).
  { intros name. unfold inMasterSubnets. simpl. split.
    - intros (ig & Hig & Hn). apply list_elem_of_singleton in Hig as ->.
      exists masterOnB. split; [right; left | exact Hn].
    - intros (ig & Hig & Hn). exists masterOnB. split; [left|].
      apply elem_of_cons in Hig as [->|Hig].
      + simpl in Hn. apply elem_of_cons in Hn as [->|Hn]; [left | exact Hn].
      + apply list_elem_of_singleton in Hig as ->. exact Hn. }
  split; [exact H|].
  exact (choice_depends_on_master_subnet_names scenarioCluster scenarioClusterTwoMasters
           "us-east-1a" [subnetB; subnetA] emptyWorld H).
Defined.

Lemma prefers_master_subnets_witness :
  (forall x, x ∈ [subnetP; subnetQ] -> ClusterSubnetSpec_Type x <> SubnetTypeUtility)
  /\ (exists x, x ∈ [subnetP; subnetQ]
        /\ inMasterSubnets privateCluster (ClusterSubnetSpec_Name x))
  /\ exists r w',
       chooseBestSubnetForELB privateCluster "us-east-1a" [subnetP; subnetQ] emptyWorld
       = (Return (Some r), w')
       /\ r ∈ [subnetP; subnetQ]
       /\ inMasterSubnets privateCluster (ClusterSubnetSpec_Name r).
Proof.
  assert (H1 : forall x, x ∈ [subnetP; subnetQ] ->
                 ClusterSubnetSpec_Type x <> SubnetTypeUtility).
  { intros x Hx. repeat (apply elem_of_cons in Hx as [->|Hx]; [discriminate|]).
    inversion Hx. }
  assert (H2 : exists x, x ∈ [subnetP; subnetQ]
                 /\ inMasterSubnets privateCluster (ClusterSubnetSpec_Name x)).
  { exists subnetQ. split; [right; left|]. exists masterOnQ. split; left. }
  split; [exact H1|]. split; [exact H2|].
  exact (prefers_master_subnets privateCluster "us-east-1a" [subnetP; subnetQ]
           emptyWorld H1 H2).
Defined.

Lemma prefers_utility_subnets_witness :
  (exists x, x ∈ [subnetB; subnetA] /\ ClusterSubnetSpec_Type x = SubnetTypeUtility)
  /\ (forall x, x ∈ [subnetB; subnetA] -> ClusterSubnetSpec_Type x <> SubnetTypeUtility ->
        ~ inMasterSubnets masterOnCCluster (ClusterSubnetSpec_Name x))
  /\ exists r w',
       chooseBestSubnetForELB masterOnCCluster "us-east-1a" [subnetB; subnetA] emptyWorld
       = (Return (Some r), w')
       /\ r ∈ [subnetB; subnetA]
       /\ ClusterSubnetSpec_Type r = SubnetTypeUtility.
Proof.
  assert (H1 : exists x, x ∈ [subnetB; subnetA]
                 /\ ClusterSubnetSpec_Type x = SubnetTypeUtility).
  { exists subnetA. split; [right; left | reflexivity]. }
  assert (H2 : forall x, x ∈ [subnetB; subnetA] ->
                 ClusterSubnetSpec_Type x <> SubnetTypeUtility ->
                 ~ inMasterSubnets masterOnCCluster (ClusterSubnetSpec_Name x)).
  { intros x Hx Hu (ig & Hig & Hn). simpl in Hig.
    apply list_elem_of_singleton in Hig as ->. simpl in Hn.
    apply list_elem_of_singleton in Hn.
    apply elem_of_cons in Hx as [->|Hx]; [discriminate|].
    apply list_elem_of_singleton in Hx as ->. discriminate. }
  split; [exact H1|]. split; [exact H2|].
  exact (prefers_utility_subnets masterOnCCluster "us-east-1a" [subnetB; subnetA]
           emptyWorld H1 H2).
Defined.

Lemma first_error_wins_witness :
  UseLoadBalancerForAPI unknownSubnetCluster = true
  /\ ClusterSpec_LoadBalancer (Cluster_Spec unknownSubnetCluster) = Some publicLoadBalancer
  /\ (validLoadBalancerType (LoadBalancerAccessSpec_Type publicLoadBalancer) = false ->
      Build inOrder wholeSeconds unknownSubnetCluster emptyWorld
      = (Fail (Errorf "unhandled LoadBalancer type %q"
                 [LoadBalancerAccessSpec_Type publicLoadBalancer]), emptyWorld))
  /\ (validLoadBalancerType (LoadBalancerAccessSpec_Type publicLoadBalancer) = true ->
      forall known s rest,
        ClusterSpec_Subnets (Cluster_Spec unknownSubnetCluster) = known ++ s :: rest ->
        forallb knownSubnetType known = true -> knownSubnetType s = false ->
        Build inOrder wholeSeconds unknownSubnetCluster emptyWorld
        = (Fail (Errorf "subnet %q had unknown type %q"
                   [ClusterSubnetSpec_Name s; ClusterSubnetSpec_Type s]), emptyWorld)).
Proof.
  split; [reflexivity|]. split; [reflexivity|].
  exact (first_error_wins inOrder wholeSeconds unknownSubnetCluster publicLoadBalancer
           emptyWorld eq_refl eq_refl).
Defined.

Lemma task_names_distinct_witness :
  UseLoadBalancerForAPI scenarioCluster = true
  /\ ClusterSpec_LoadBalancer (Cluster_Spec scenarioCluster) = Some publicLoadBalancer
  /\ validLoadBalancerType (LoadBalancerAccessSpec_Type publicLoadBalancer) = true
  /\ forallb knownSubnetType (ClusterSpec_Subnets (Cluster_Spec scenarioCluster)) = true
  /\ exists w' ts,
       Build inOrder wholeSeconds scenarioCluster emptyWorld = (Return tt, w')
       /\ Tasks w' = Tasks emptyWorld ++ ts
       /\ (NoDup (ruleNames ts)
           <-> NoDup (ClusterSpec_KubernetesAPIAccess (Cluster_Spec scenarioCluster)))
       /\ (NoDup (attachmentNames ts)
           <-> NoDup (map InstanceGroup_Name (MasterInstanceGroups scenarioCluster)))
       /\ (NoDup (map taskName ts) ->
           NoDup (ClusterSpec_KubernetesAPIAccess (Cluster_Spec scenarioCluster))
           /\ NoDup (map InstanceGroup_Name (MasterInstanceGroups scenarioCluster)))
       /\ (Repeated w' = Repeated emptyWorld
           <-> NoDup (map taskName ts)
               /\ forall t, t ∈ ts -> taskName t ∉ TaskGraph_names (Graph emptyWorld))
       /\ (NoDup (TaskGraph_names (Graph emptyWorld)) -> NoDup (TaskGraph_names (Graph w'))).
Proof.
  do 4 (split; [reflexivity|]).
  exact (task_names_distinct inOrder wholeSeconds scenarioCluster publicLoadBalancer
           emptyWorld eq_refl eq_refl eq_refl eq_refl).
Defined.

Lemma idle_timeout_duration_witness :
  UseLoadBalancerForAPI internalCluster = true
  /\ ClusterSpec_LoadBalancer (Cluster_Spec internalCluster) = Some internalLoadBalancer
  /\ validLoadBalancerType (LoadBalancerAccessSpec_Type internalLoadBalancer) = true
  /\ forallb knownSubnetType (ClusterSpec_Subnets (Cluster_Spec internalCluster)) = true
  /\ exists w' elb rest d,
       Build inOrder wholeSeconds internalCluster emptyWorld = (Return tt, w')
       /\ Tasks w' = Tasks emptyWorld ++ TaskLoadBalancer elb :: rest
       /\ LoadBalancer_ConnectionSettings elb
          = Some {| LoadBalancerConnectionSettings_IdleTimeout := Some (wholeSeconds d) |}
       /\ - 2 ^ 63 <= d < 2 ^ 63
       /\ (LoadBalancerAccessSpec_IdleTimeoutSeconds internalLoadBalancer = None ->
           d = 300 * 10 ^ 9)
       /\ (forall seconds,
             LoadBalancerAccessSpec_IdleTimeoutSeconds internalLoadBalancer = Some seconds ->
             (d - seconds * 10 ^ 9) mod 2 ^ 64 = 0
             /\ (d = seconds * 10 ^ 9 <-> -9223372036 <= seconds <= 9223372036)).
Proof.
  do 4 (split; [reflexivity|]).
  exact (idle_timeout_duration inOrder wholeSeconds internalCluster internalLoadBalancer
           emptyWorld eq_refl eq_refl eq_refl eq_refl).
Defined.

Lemma linked_subnet_is_best_of_zone_witness :
  (forall entries, inOrder entries ≡ₚ entries)
  /\ UseLoadBalancerForAPI twoZoneCluster = true
  /\ ClusterSpec_LoadBalancer (Cluster_Spec twoZoneCluster) = Some publicLoadBalancer
  /\ validLoadBalancerType (LoadBalancerAccessSpec_Type publicLoadBalancer) = true
  /\ forallb knownSubnetType (ClusterSpec_Subnets (Cluster_Spec twoZoneCluster)) = true
  /\ exists chosen,
       (forall w, exists w' elb rest,
          Build inOrder wholeSeconds twoZoneCluster w = (Return tt, w')
          /\ Tasks w' = Tasks w ++ TaskLoadBalancer elb :: rest
          /\ loadBalancers rest = []
          /\ LoadBalancer_Subnets elb
             = map (fun s => LinkToSubnet twoZoneCluster (Some s)) chosen)
       /\ forall s, s ∈ chosen ->
            s ∈ ClusterSpec_Subnets (Cluster_Spec twoZoneCluster)
            /\ compatible (LoadBalancerAccessSpec_Type publicLoadBalancer) s = true
            /\ forall x,
                 x ∈ ClusterSpec_Subnets (Cluster_Spec twoZoneCluster) ->
                 compatible (LoadBalancerAccessSpec_Type publicLoadBalancer) x = true ->
                 ClusterSubnetSpec_Zone x = ClusterSubnetSpec_Zone s ->
                 scoreOf twoZoneCluster x <= scoreOf twoZoneCluster s
                 /\ (scoreOf twoZoneCluster x = scoreOf twoZoneCluster s ->
                     String.ltb (ClusterSubnetSpec_Name x) (ClusterSubnetSpec_Name s)
                     = false).
Proof.
  split; [intros entries; reflexivity|].
  do 4 (split; [reflexivity|]).
  exact (linked_subnet_is_best_of_zone inOrder wholeSeconds
           (fun entries => Permutation_refl (inOrder entries))
           twoZoneCluster publicLoadBalancer eq_refl eq_refl eq_refl eq_refl).
Defined.

Lemma subnet_list_order_irrelevant_witness :
  (forall entries, inOrder entries ≡ₚ entries)
  /\ UseLoadBalancerForAPI twoZoneCluster = true
  /\ UseLoadBalancerForAPI twoZoneClusterReversed = true
  /\ ClusterSpec_LoadBalancer (Cluster_Spec twoZoneCluster) = Some publicLoadBalancer
  /\ ClusterSpec_LoadBalancer (Cluster_Spec twoZoneClusterReversed) = Some publicLoadBalancer
  /\ validLoadBalancerType (LoadBalancerAccessSpec_Type publicLoadBalancer) = true
  /\ forallb knownSubnetType (ClusterSpec_Subnets (Cluster_Spec twoZoneCluster)) = true
  /\ MasterInstanceGroups twoZoneClusterReversed = MasterInstanceGroups twoZoneCluster
  /\ ClusterSpec_Subnets (Cluster_Spec twoZoneClusterReversed)
     ≡ₚ ClusterSpec_Subnets (Cluster_Spec twoZoneCluster)
  /\ namesIdentify (ClusterSpec_Subnets (Cluster_Spec twoZoneCluster))
  /\ exists chosen chosen',
       (forall w, exists w' elb rest,
          Build inOrder wholeSeconds twoZoneCluster w = (Return tt, w')
          /\ Tasks w' = Tasks w ++ TaskLoadBalancer elb :: rest
          /\ loadBalancers rest = []
          /\ LoadBalancer_Subnets elb
             = map (fun s => LinkToSubnet twoZoneCluster (Some s)) chosen)
       /\ (forall w, exists w' elb rest,
             Build inOrder wholeSeconds twoZoneClusterReversed w = (Return tt, w')
             /\ Tasks w' = Tasks w ++ TaskLoadBalancer elb :: rest
             /\ loadBalancers rest = []
             /\ LoadBalancer_Subnets elb
                = map (fun s => LinkToSubnet twoZoneClusterReversed (Some s)) chosen')
       /\ chosen ≡ₚ chosen'.
Proof.
  assert (Hp : ClusterSpec_Subnets (Cluster_Spec twoZoneClusterReversed)
               ≡ₚ ClusterSpec_Subnets (Cluster_Spec twoZoneCluster)).
  { symmetry. exact (Permutation_rev [subnetA; subnetB; subnetC]). }
  assert (Hid : namesIdentify (ClusterSpec_Subnets (Cluster_Spec twoZoneCluster))).
  { apply NoDup_names_identify. simpl. apply (bool_decide_unpack _). vm_compute. exact I. }
  split; [intros entries; reflexivity|].
  do 7 (split; [reflexivity|]).
  split; [exact Hp|]. split; [exact Hid|].
  exact (subnet_list_order_irrelevant inOrder wholeSeconds
           (fun entries => Permutation_refl (inOrder entries))
           twoZoneCluster twoZoneClusterReversed publicLoadBalancer
           eq_refl eq_refl eq_refl eq_refl eq_refl eq_refl eq_refl Hp Hid).
Defined.

Lemma scheme_of_type_witness :
  exists elb rest,
    Tasks (snd (Build inOrder wholeSeconds internalCluster emptyWorld))
    = TaskLoadBalancer elb :: rest
    /\ loadBalancers rest = []
    /\ LoadBalancer_Scheme elb = Some "internal".
Proof.
  destruct (scheme_of_type inOrder wholeSeconds internalCluster emptyWorld)
    as [(ts & Hts & _ & Hadds) _].
  destruct (Hadds internalLoadBalancer eq_refl eq_refl eq_refl eq_refl)
    as (_ & elb & rest & Heq & Hrest & Hinternal & _).
  exists elb, rest. split; [rewrite Hts, Heq; reflexivity|].
  split; [exact Hrest|]. apply Hinternal. reflexivity.
Defined.
